(** * Partition / translate / merge pipeline of [1._multithreaded_translation.py]

    A shallow embedding of [translate_text], [translate_dataframe_segment],
    [translate_dataframe] and [main], followed by the properties of the
    pipeline: partitioning, per-row failure handling, progress logging,
    merge order, pass-through of columns and persistence. *)

From Stdlib Require Import ZArith String Ascii DecimalString Bool Lia List.
From Stdlib Require Import Permutation.
From Stdlib Require DecimalPos DecimalZ.
Import ListNotations.
Open Scope Z_scope.

(** ** Python values, exceptions and results *)

(** A Python [str]: the sequence of its characters, each one a Unicode code
    point.  Slicing a [str] counts characters, not the bytes of an
    encoding. *)
Definition pystr : Type := list N.

(** The [str] of a literal of the program, whose characters are ASCII. *)
Definition py (s : string) : pystr := map N_of_ascii (list_ascii_of_string s).

Fixpoint pystr_eqb (a b : pystr) : bool :=
  match a, b with
  | [], [] => true
  | x :: a', y :: b' => (N.eqb x y && pystr_eqb a' b')%bool
  | _, _ => false
  end.

(** A cell of the data frame as the loop over [df_segment.iterrows()] sees
    it in [row.text].  [pandas.read_csv] loads a text cell as a [str], a
    missing cell as NaN and a numeric cell as a number.  When some column of
    the frame holds objects (strings), the row is a Series of Python
    objects: [PyStr], [PyInt], the float [PyNaN], [PyNone].  When every
    column of the frame is numeric, the row is a numeric Series and its
    cells are numpy scalars: [NpNum] (a [numpy.int64] or [numpy.float64]
    holding that number) and [NpNaN] (the [numpy.float64] NaN). *)
Inductive pyval : Type :=
| PyStr (s : pystr)
| PyInt (z : Z)
| PyNaN
| PyNone
| NpNum (z : Z)
| NpNaN.

(** Exceptions, all of them subclasses of Python's [Exception].  The built-in
    ones the pipeline can raise by itself are constructors; any other class
    (the provider's own errors, for instance) is named by [PyException]. *)
Inductive pyexn : Type :=
| ZeroDivisionError
| IndexError
| TypeError
| AttributeError
| ValueError
| PyException (cls : string).

Inductive result (A : Type) : Type :=
| Ok (a : A)
| Raise (e : pyexn).
Arguments Ok {A} a.
Arguments Raise {A} e.

(** A row is the ordered list of its (column, value) pairs; a data frame is
    the ordered list of its rows. *)
Definition Row : Type := list (string * pyval).
Definition DataFrame : Type := list Row.

(** ** Observable effects *)

(** What the program does besides computing: log lines, directory creation,
    provider calls, task submission and the CSV written at the end. *)
Inductive event : Type :=
| LogStart
| LogProgress (thread_name : string) (counter : Z)
| LogCompleted (output_file : string)
| LogError (text_prefix : pystr) (e : pyexn)
| Makedirs (path : string)
| ProviderCall (text : pyval) (target_language : string)
| ApplyAsync (i : Z)
| ToCsv (path : string) (df : DataFrame).

(** A computation yields a value or an exception, and the events it emitted
    up to that point.  The program never reads its own log back, so the
    events are an output only. *)
Definition M (A : Type) : Type := (result A * list event)%type.

Definition ret {A} (a : A) : M A := (Ok a, []).
Definition raise {A} (e : pyexn) : M A := (Raise e, []).
Definition emit (ev : event) : M unit := (Ok tt, [ev]).
Definition lift {A} (r : result A) : M A := (r, []).

Definition bind {A B} (m : M A) (f : A -> M B) : M B :=
  match m with
  | (Ok a, t) => let (r, t') := f a in (r, t ++ t')
  | (Raise e, t) => (Raise e, t)
  end.

(** [try: m except Exception as e: h e] *)
Definition try_except {A} (m : M A) (h : pyexn -> M A) : M A :=
  match m with
  | (Ok a, t) => (Ok a, t)
  | (Raise e, t) => let (r, t') := h e in (r, t ++ t')
  end.

Declare Scope py_scope.
Delimit Scope py_scope with py.
Notation "x <- c1 ;; c2" := (bind c1 (fun x => c2))
  (at level 100, c1 at next level, right associativity) : py_scope.
Notation "c1 ;; c2" := (bind c1 (fun _ => c2))
  (at level 100, right associativity) : py_scope.
Open Scope py_scope.

Definition outcome {A} (m : M A) : result A := fst m.
Definition events {A} (m : M A) : list event := snd m.

(** [for x in xs: body x] *)
Fixpoint for_each {A} (xs : list A) (body : A -> M unit) : M unit :=
  match xs with
  | [] => ret tt
  | x :: rest => body x ;; for_each rest body
  end.

(** [[f x for x in xs]], elements evaluated left to right. *)
Fixpoint comprehension {A B} (f : A -> M B) (xs : list A) : M (list B) :=
  match xs with
  | [] => ret []
  | x :: rest => y <- f x ;; ys <- comprehension f rest ;; ret (y :: ys)
  end.

(** ** Python and pandas primitives *)

(** [a // b] on integers: floor division, an error when [b] is zero. *)
Definition floordiv (a b : Z) : result Z :=
  if b =? 0 then Raise ZeroDivisionError else Ok (a / b).

(** [range(n)] *)
Definition range (n : Z) : list Z := map Z.of_nat (seq 0 (Z.to_nat n)).

Definition len {A} (l : list A) : Z := Z.of_nat (length l).

(** A slice bound, clamped the way Python clamps it: a negative bound counts
    from the end. *)
Definition slice_bound (n i : Z) : Z :=
  if i <? 0 then Z.max 0 (n + i) else Z.min i n.

(** [df.iloc[a:b]] *)
Definition iloc {A} (df : list A) (a b : Z) : list A :=
  let s := slice_bound (len df) a in
  let e := slice_bound (len df) b in
  firstn (Z.to_nat (e - s)) (skipn (Z.to_nat s) df).

(** [df.iloc[a:]] *)
Definition iloc_from {A} (df : list A) (a : Z) : list A :=
  skipn (Z.to_nat (slice_bound (len df) a)) df.

(** [l[i]] for a non-negative [i] *)
Definition getitem {A} (l : list A) (i : Z) : result A :=
  if i <? 0 then Raise IndexError
  else match nth_error l (Z.to_nat i) with
       | Some x => Ok x
       | None => Raise IndexError
       end.

(** [l[-1]] *)
Definition getitem_last {A} (l : list A) : result A :=
  match rev l with
  | x :: _ => Ok x
  | [] => Raise IndexError
  end.

(** [l[-1] = x] *)
Definition setitem_last {A} (l : list A) (x : A) : result (list A) :=
  match l with
  | [] => Raise IndexError
  | _ => Ok (removelast l ++ [x])
  end.

(** [pd.concat(frames)]: refuses an empty list of frames. *)
Definition pd_concat (frames : list DataFrame) : result DataFrame :=
  match frames with
  | [] => Raise ValueError
  | _ => Ok (concat frames)
  end.

(** [str(z)] *)
Definition str (z : Z) : string := NilZero.string_of_int (Z.to_int z).

(** [os.path.join(a, b)] on POSIX paths. *)
Definition ends_with_slash (a : string) : bool :=
  match rev (list_ascii_of_string a) with
  | c :: _ => Ascii.eqb c "/"%char
  | [] => false
  end.

Definition os_path_join (a b : string) : string :=
  match b with
  | String c _ =>
      if Ascii.eqb c "/"%char then b
      else if (String.eqb a EmptyString || ends_with_slash a)%bool then String.append a b
      else String.append a (String "/"%char b)
  | EmptyString =>
      if (String.eqb a EmptyString || ends_with_slash a)%bool then a
      else String.append a "/"
  end.

(** [row.name]: the value of the column [name], an [AttributeError] when
    the frame has no such column. *)
Fixpoint row_get (name : string) (row : Row) : option pyval :=
  match row with
  | [] => None
  | (k, v) :: rest => if String.eqb k name then Some v else row_get name rest
  end.

Definition getattr (row : Row) (name : string) : M pyval :=
  match row_get name row with
  | Some v => ret v
  | None => raise AttributeError
  end.

(** Assigning a column value in a row: an existing column keeps its place
    and takes the new value, a new column is added after the others. *)
Fixpoint row_set (name : string) (v : pyval) (row : Row) : Row :=
  match row with
  | [] => [(name, v)]
  | (k, w) :: rest =>
      if String.eqb k name then (k, v) :: rest
      else (k, w) :: row_set name v rest
  end.

(** [df[name] = values]: the values are assigned by position; pandas raises
    [ValueError] when their number is not the number of rows. *)
Definition set_column (name : string) (values : list pyval) (df : DataFrame)
  : result DataFrame :=
  if Nat.eqb (length values) (length df)
  then Ok (map (fun rv => row_set name (snd rv) (fst rv)) (combine df values))
  else Raise ValueError.

(** [text[:k]]: the first [k] characters of a string.  A Python object
    that is not a string is not subscriptable ([TypeError]); a numpy scalar
    refuses the index ([IndexError]: invalid index to scalar variable). *)
Definition slice_to (k : nat) (text : pyval) : result pystr :=
  match text with
  | PyStr s => Ok (firstn k s)
  | PyInt _ | PyNaN | PyNone => Raise TypeError
  | NpNum _ | NpNaN => Raise IndexError
  end.

Definition no_translation : pyval := PyStr (py "no translation").

(** ** The program *)

Section Pipeline.

(** The translation provider,
    [GoogleTranslator(source='auto', target=target_language).translate(text)]:
    an external call that returns the translated string or raises.  It is
    taken as a function of its two arguments. *)
Variable provider : pyval -> string -> result pystr.

Definition call_provider (text : pyval) (target_language : string) : M pystr :=
  emit (ProviderCall text target_language) ;;
  lift (provider text target_language).

(** [translate_text], lines 18-24. *)
Definition translate_text (text : pyval) (target_language : string) : M pyval :=
  try_except
    (s <- call_provider text target_language ;; ret (PyStr s))
    (fun e =>
       text_prefix <- lift (slice_to 30 text) ;;
       emit (LogError text_prefix e) ;;
       ret no_translation).

Definition checkpoint_interval : Z := 5.

(** The loop of [translate_dataframe_segment], lines 31-35, with its two
    loop variables [translated_texts] and [counter]. *)
Fixpoint iterrows_loop (rows : DataFrame) (thread_name target_language : string)
    (translated_texts : list pyval) (counter : Z) : M (list pyval) :=
  match rows with
  | [] => ret translated_texts
  | row :: rest =>
      text <- getattr row "text" ;;
      t <- translate_text text target_language ;;
      let translated_texts := translated_texts ++ [t] in
      let counter := counter + 1 in
      (if counter mod checkpoint_interval =? 0
       then emit (LogProgress thread_name counter)
       else ret tt) ;;
      iterrows_loop rest thread_name target_language translated_texts counter
  end.

(** [translate_dataframe_segment], lines 26-39.  [save_path] is unused: the
    line that wrote the segment is commented out in the source. *)
Definition translate_dataframe_segment (df_segment : DataFrame)
    (thread_name save_path target_language : string) : M DataFrame :=
  translated_texts <- iterrows_loop df_segment thread_name target_language [] 0 ;;
  lift (set_column "text_translated" translated_texts df_segment).

(** *** The thread pool

    [pool.apply_async] hands a task to the pool and returns at once a handle
    that will hold the task's return value or the exception it raised.  From
    then on the task runs in a worker thread, concurrently with the main
    thread, which goes on submitting, and with the other workers.  [sched]
    is the order in which the threads take their steps.  A step of the main
    thread evaluates the arguments of the next [apply_async] and submits the
    task; a step of worker [i], the thread that runs the task submitted
    [i]-th, emits the next event of that task or, when none is left, makes
    the task return.  A step that cannot be taken (a worker whose task is
    not submitted yet or has returned, the main thread with nothing left to
    submit) is skipped.  When [sched] runs out, the main thread submits what
    is left and waits in [pool.join] for the workers, which finish one
    after the other. *)
Inductive thread : Type :=
| MainThread
| Worker (i : nat).

(** What a submission will emit and return once it runs; a submission whose
    arguments could not be evaluated never runs. *)
Definition task_events {A} (sub : result (M A)) : list event :=
  match sub with
  | Ok task => events task
  | Raise _ => []
  end.

Definition task_outcome {A} (sub : result (M A)) : result A :=
  match sub with
  | Ok task => outcome task
  | Raise e => Raise e
  end.

(** [l] with [x] at index [i]. *)
Definition set_nth {A} (i : nat) (x : A) (l : list A) : list A :=
  firstn i l ++ x :: skipn (S i) l.

(** The main thread submitting the submissions [subs], the first of which
    has index [k]. *)
Fixpoint submit_rest {A} (subs : list (result (M A))) (k : nat) : M unit :=
  match subs with
  | [] => ret tt
  | Ok _ :: rest => emit (ApplyAsync (Z.of_nat k)) ;; submit_rest rest (S k)
  | Raise e :: _ => raise e
  end.

(** [pool.join]: each worker, from the one of index [i] on, emits what it
    still has to emit and returns if it has not yet. *)
Fixpoint join_workers (pending : list (list event)) (i : nat)
    (returned : list nat) : M (list nat) :=
  match pending with
  | [] => ret returned
  | evs :: rest =>
      (Ok tt, evs) ;;
      join_workers rest (S i)
        (if existsb (Nat.eqb i) returned then returned else returned ++ [i])
  end.

(** The pool at work: [k] tasks are submitted, [pending] holds for each
    task the events it has still to emit, [returned] the indices of the
    tasks that have returned, in the order they did. *)
Fixpoint pool_steps {A} (subs : list (result (M A))) (sched : list thread)
    (k : nat) (pending : list (list event)) (returned : list nat)
  : M (list nat) :=
  match sched with
  | [] => submit_rest (skipn k subs) k ;; join_workers pending 0 returned
  | MainThread :: sched' =>
      match nth_error subs k with
      | Some (Ok _) =>
          emit (ApplyAsync (Z.of_nat k)) ;;
          pool_steps subs sched' (S k) pending returned
      | Some (Raise e) => raise e
      | None => pool_steps subs sched' k pending returned
      end
  | Worker i :: sched' =>
      if Nat.ltb i k then
        match nth_error pending i with
        | Some (ev :: evs) =>
            emit ev ;;
            pool_steps subs sched' k (set_nth i evs pending) returned
        | Some [] =>
            pool_steps subs sched' k pending
              (if existsb (Nat.eqb i) returned then returned
               else returned ++ [i])
        | None => pool_steps subs sched' k pending returned
        end
      else pool_steps subs sched' k pending returned
  end.

(** From the first [apply_async] to the return of [pool.join]: the handles
    that have been filled, in the order the tasks returned, each with the
    index of its task. *)
Definition pool_join {A} (sched : list thread) (subs : list (result (M A)))
  : M (list (nat * result A)) :=
  returned <- pool_steps subs sched 0 (map task_events subs) [] ;;
  ret (flat_map (fun i => match nth_error subs i with
                          | Some sub => [(i, task_outcome sub)]
                          | None => []
                          end) returned).

(** [results[i].get()]: the value of the task submitted [i]-th, or its
    exception raised again in the caller. *)
Fixpoint async_get {A} (finished : list (nat * result A)) (i : nat) : result A :=
  match finished with
  | [] => Raise IndexError
  | (j, r) :: rest => if Nat.eqb j i then r else async_get rest i
  end.

(** The split of [translate_dataframe], lines 48-52: [num_threads] chunks of
    [len(df) // num_threads] rows each, then the last chunk replaced by
    itself followed by the rows left over.  It touches nothing outside, so
    it emits no event. *)
Definition split_dataframe (df : DataFrame) (num_threads : Z)
  : M (list DataFrame) :=
  chunk_size <- lift (floordiv (len df) num_threads) ;;
  let df_chunks :=
    map (fun i => iloc df (i * chunk_size) ((i + 1) * chunk_size))
        (range num_threads) in
  last_chunk <- lift (getitem_last df_chunks) ;;
  adjusted <- lift (pd_concat
                      [last_chunk; iloc_from df (num_threads * chunk_size)]) ;;
  lift (setitem_last df_chunks adjusted).

(** [translate_dataframe], lines 41-74.  [submissions] holds, for each index
    of line 61, what evaluating the arguments of its [apply_async] gives: the
    task, or the exception of an index out of range; evaluating them emits
    nothing.  The calls to [apply_async] themselves are the steps of the
    main thread in [pool_join], where they interleave with the workers. *)
Definition translate_dataframe (sched : list thread) (df : DataFrame)
    (num_threads : Z) (parent_dir target_language : string) : M DataFrame :=
  emit LogStart ;;
  let save_dir := os_path_join parent_dir "dfs_translated" in
  emit (Makedirs save_dir) ;;
  df_chunks <- split_dataframe df num_threads ;;
  let thread_names :=
    map (fun i => String.append "Thread_" (str (i + 1))) (range num_threads) in
  let save_paths :=
    map (fun i => os_path_join save_dir
                    (String.append "sub_dfs_translated_" (str (i + 1))))
        (range num_threads) in
  for_each save_paths (fun path => emit (Makedirs path)) ;;
  (if num_threads <? 1 then raise ValueError else ret tt) ;;
  let submissions :=
    map (fun i =>
           outcome
             (chunk <- lift (getitem df_chunks i) ;;
              thread_name <- lift (getitem thread_names i) ;;
              save_path <- lift (getitem save_paths i) ;;
              ret (translate_dataframe_segment chunk thread_name save_path
                     target_language)))
        (range num_threads) in
  finished <- pool_join sched submissions ;;
  translated_dfs <- comprehension
                      (fun i => lift (async_get finished i))
                      (seq 0 (length submissions)) ;;
  translated_df <- lift (pd_concat translated_dfs) ;;
  let output_file := os_path_join parent_dir "df_translated.csv" in
  emit (ToCsv output_file translated_df) ;;
  emit (LogCompleted output_file) ;;
  ret translated_df.

(** [main], lines 76-86, after argument parsing; [df] is what
    [pd.read_csv(input_path)] returned.  The value [translate_dataframe]
    returns is dropped. *)
Definition main (sched : list thread) (df : DataFrame) (output_path : string)
    (num_threads : Z) (language : string) : M unit :=
  translate_dataframe sched df num_threads output_path language ;;
  ret tt.

End Pipeline.

(** ** A provider and a dataset to run the program on *)

(** Translates two English words to German; fails on anything else, as the
    real provider does on a payload that is not a string. *)
Definition demo_provider (text : pyval) (target_language : string)
  : result pystr :=
  match text with
  | PyStr s =>
      if pystr_eqb s (py "flood") then Ok (py "Hochwasser")
      else if pystr_eqb s (py "rain") then Ok (py "Regen")
      else Raise (PyException "TranslationNotFound")
  | _ => Raise (PyException "NotValidPayload")
  end.

Definition tweet (id : Z) (text : pyval) : Row :=
  [("id"%string, PyInt id); ("text"%string, text)].

Definition demo_df : DataFrame :=
  [tweet 1 (PyStr (py "flood")); tweet 2 (PyStr (py "rain")); tweet 3 (PyStr (py "storm"))].

(** An interleaving in which the second worker starts before the first
    and is the first to return. *)
Definition demo_sched : list thread :=
  [MainThread; MainThread; Worker 1; Worker 0; Worker 1; Worker 1;
   Worker 1; Worker 0].

(** A segment with a missing text between two good rows. *)
Definition nan_segment : DataFrame :=
  [tweet 1 (PyStr (py "flood")); tweet 2 PyNaN; tweet 3 (PyStr (py "rain"))].

(** A frame that already has a [text_translated] column. *)
Definition translated_once : DataFrame :=
  [[("text"%string, PyStr (py "flood")); ("text_translated"%string, PyStr (py "old"))]].

(** Six rows, the third of which the provider cannot translate. *)
Definition six_tweets : DataFrame :=
  [tweet 1 (PyStr (py "flood")); tweet 2 (PyStr (py "rain")); tweet 3 (PyStr (py "storm"));
   tweet 4 (PyStr (py "rain")); tweet 5 (PyStr (py "flood")); tweet 6 (PyStr (py "rain"))].

(** A frame without a [text] column; its only column is numeric. *)
Definition untexted_df : DataFrame :=
  [[("id"%string, NpNum 1)]; [("id"%string, NpNum 2)]].

(** A frame whose columns are all numeric: every text is missing, so that
    the [text] column is a column of floats. *)
Definition all_nan_df : DataFrame :=
  [[("id"%string, NpNum 1); ("text"%string, NpNaN)];
   [("id"%string, NpNum 2); ("text"%string, NpNaN)]].

(** ** Notions used to state the properties *)

(** The rows [i * size .. (i + 1) * size - 1] of [df]. *)
Definition rows_of_chunk {A} (df : list A) (size i : nat) : list A :=
  firstn size (skipn (i * size) df).

(** The chunks the split is expected to produce for a positive number of
    threads: all but the last of [size = len(df) // num_threads] rows, the
    last one with every row from [(num_threads - 1) * size] on. *)
Definition chunks_of (df : DataFrame) (num_threads : Z) : list DataFrame :=
  let size := Z.to_nat (len df / num_threads) in
  let k := (Z.to_nat num_threads - 1)%nat in
  map (rows_of_chunk df size) (seq 0 k) ++ [skipn (k * size) df].

(** A row as the data model wants it: it has a [text] column holding a
    string. *)
Definition has_text_str (row : Row) : bool :=
  match row_get "text" row with
  | Some (PyStr _) => true
  | _ => false
  end.

(** The counts [c] in [1..n] that are multiples of [k]: the rows after which
    a progress report is due when one is made every [k]-th row. *)
Definition checkpoints (k n : Z) : list Z :=
  filter (fun c => c mod k =? 0) (map (fun j => j + 1) (range n)).

(** The progress reports of a trace, in order, each with the number of
    provider calls made before it, counting from [calls]. *)
Fixpoint progress_log (calls : Z) (tr : list event) : list (string * Z * Z) :=
  match tr with
  | [] => []
  | ProviderCall _ _ :: tr' => progress_log (calls + 1) tr'
  | LogProgress thread_name counter :: tr' =>
      (thread_name, counter, calls) :: progress_log calls tr'
  | _ :: tr' => progress_log calls tr'
  end.

Definition is_provider_call (ev : event) : bool :=
  match ev with ProviderCall _ _ => true | _ => false end.

Definition provider_calls (tr : list event) : Z :=
  len (filter is_provider_call tr).

(** The events a worker can emit. *)
Definition is_worker_event (ev : event) : bool :=
  match ev with
  | ProviderCall _ _ | LogError _ _ | LogProgress _ _ => true
  | _ => false
  end.

Definition is_apply_async (ev : event) : bool :=
  match ev with ApplyAsync _ => true | _ => false end.

(** The events of the pool: submissions and events of the workers. *)
Definition is_pool_event (ev : event) : bool :=
  (is_apply_async ev || is_worker_event ev)%bool.

Definition is_to_csv (ev : event) : bool :=
  match ev with ToCsv _ _ => true | _ => false end.

(** The computation [m] placed after the events [t]. *)
Definition after {A} (t : list event) (m : M A) : M A := (fst m, t ++ snd m).

(** The values of a list of results, or the first exception in it. *)
Fixpoint all_ok {A} (rs : list (result A)) : result (list A) :=
  match rs with
  | [] => Ok []
  | Raise e :: _ => Raise e
  | Ok a :: rest =>
      match all_ok rest with
      | Ok l => Ok (a :: l)
      | Raise e => Raise e
      end
  end.

(** The arguments of the provider calls of a trace, in order. *)
Definition provider_args (tr : list event) : list (pyval * string) :=
  flat_map (fun ev => match ev with
                      | ProviderCall text target_language =>
                          [(text, target_language)]
                      | _ => []
                      end) tr.

(** The directories a trace creates, in order. *)
Definition makedirs_of (tr : list event) : list string :=
  flat_map (fun ev => match ev with Makedirs path => [path] | _ => [] end) tr.

(** The error lines of a trace, in order: the text shown and the exception. *)
Definition error_lines (tr : list event) : list (pystr * pyexn) :=
  flat_map (fun ev => match ev with
                      | LogError text_prefix e => [(text_prefix, e)]
                      | _ => []
                      end) tr.

(** The provider call a row gives rise to: one on its text, none when the
    row has no [text] column. *)
Definition row_call (target_language : string) (row : Row)
  : list (pyval * string) :=
  match row_get "text" row with
  | Some text => [(text, target_language)]
  | None => []
  end.

Section Outcomes.

Variable provider : pyval -> string -> result pystr.

(** What one turn of the loop of [translate_dataframe_segment] computes for
    a row: [translate_text(row.text, target_language)]. *)
Definition translate_row (target_language : string) (row : Row) : M pyval :=
  text <- getattr row "text" ;;
  translate_text provider text target_language.

(** What the run makes of a row: the row has a [text], [translate_text]
    returns a value for it (the provider's translation, or the sentinel when
    the provider raised), and the output row holds that value in
    [text_translated] and is otherwise the input row: every other column
    keeps its value, a row that had no [text_translated] column gets it as
    its last column, a row that had one keeps its columns as they are. *)
Definition row_translated (target_language : string) (row row' : Row) : Prop :=
  exists text v,
    row_get "text" row = Some text /\
    outcome (translate_text provider text target_language) = Ok v /\
    (forall t, provider text target_language = Ok t -> v = PyStr t) /\
    (forall e, provider text target_language = Raise e -> v = no_translation) /\
    row_get "text_translated" row' = Some v /\
    (forall c, c <> "text_translated"%string -> row_get c row' = row_get c row) /\
    (row_get "text_translated" row = None ->
     row' = row ++ [("text_translated"%string, v)]) /\
    (row_get "text_translated" row <> None -> map fst row' = map fst row).

(** The translated texts of the rows, in order, or the first exception. *)
Fixpoint translated_texts_of (target_language : string) (rows : DataFrame)
  : result (list pyval) :=
  match rows with
  | [] => Ok []
  | row :: rest =>
      match outcome (translate_row target_language row) with
      | Raise e => Raise e
      | Ok v =>
          match translated_texts_of target_language rest with
          | Ok vs => Ok (v :: vs)
          | Raise e => Raise e
          end
      end
  end.

(** The rows with their translated text set, or the first exception. *)
Fixpoint translated_rows_of (target_language : string) (rows : DataFrame)
  : result DataFrame :=
  match rows with
  | [] => Ok []
  | row :: rest =>
      match outcome (translate_row target_language row) with
      | Raise e => Raise e
      | Ok v =>
          match translated_rows_of target_language rest with
          | Ok out => Ok (row_set "text_translated" v row :: out)
          | Raise e => Raise e
          end
      end
  end.

(** The number of leading rows that are translated without an exception. *)
Fixpoint rows_done (target_language : string) (rows : DataFrame) : Z :=
  match rows with
  | [] => 0
  | row :: rest =>
      match outcome (translate_row target_language row) with
      | Raise _ => 0
      | Ok _ => 1 + rows_done target_language rest
      end
  end.

(** The tasks [translate_dataframe] submits for a positive number of
    threads: the [i]-th one translates the [i]-th chunk. *)
Definition tasks_of (df : DataFrame) (num_threads : Z)
    (parent_dir target_language : string) : list (M DataFrame) :=
  map (fun i =>
         translate_dataframe_segment provider
           (nth (Z.to_nat i) (chunks_of df num_threads) [])
           (String.append "Thread_" (str (i + 1)))
           (os_path_join (os_path_join parent_dir "dfs_translated")
              (String.append "sub_dfs_translated_" (str (i + 1))))
           target_language)
      (range num_threads).

(** The provider calls of a worker on its segment: those of the rows in
    order, up to and including the first row that makes it raise. *)
Definition segment_calls (target_language : string) (seg : DataFrame)
  : list (pyval * string) :=
  flat_map (row_call target_language)
    (firstn (S (Z.to_nat (rows_done target_language seg))) seg).

End Outcomes.

(** ** Running computations *)

Lemma bind_Ok {A B} (m : M A) (f : A -> M B) a t :
  m = (Ok a, t) -> bind m f = (fst (f a), t ++ snd (f a)).
Proof. intros ->. unfold bind. destruct (f a); reflexivity. Qed.

Lemma bind_lift_Ok {A B} (a : A) (f : A -> M B) : bind (lift (Ok a)) f = f a.
Proof. unfold bind, lift. destruct (f a); reflexivity. Qed.

Lemma bind_ret {A B} (a : A) (f : A -> M B) : bind (ret a) f = f a.
Proof. apply bind_lift_Ok. Qed.

Lemma bind_emit {B} ev (f : unit -> M B) :
  bind (emit ev) f = (fst (f tt), ev :: snd (f tt)).
Proof. unfold bind, emit. destruct (f tt); reflexivity. Qed.

Lemma bind_after {A B} (m : M A) (f : A -> M B) a t :
  m = (Ok a, t) -> bind m f = after t (f a).
Proof. intros ->. unfold bind, after. destruct (f a); reflexivity. Qed.

Lemma bind_emit_after {B} ev (f : unit -> M B) :
  bind (emit ev) f = after [ev] (f tt).
Proof. now apply bind_after. Qed.

Lemma after_after {A} t t' (m : M A) : after t (after t' m) = after (t ++ t') m.
Proof. unfold after. simpl. now rewrite app_assoc. Qed.

Lemma after_nil {A} (m : M A) : after [] m = m.
Proof. now destruct m. Qed.

(** ** The split *)

Lemma iloc_within {A} (df : list A) (a b : Z) :
  0 <= a <= b -> b <= len df ->
  iloc df a b = firstn (Z.to_nat (b - a)) (skipn (Z.to_nat a) df).
Proof.
  intros Hab Hb. unfold iloc, slice_bound.
  destruct (Z.ltb_spec a 0); [lia|]. destruct (Z.ltb_spec b 0); [lia|].
  now rewrite !Z.min_l by lia.
Qed.

Lemma iloc_from_within {A} (df : list A) (a : Z) :
  0 <= a <= len df -> iloc_from df a = skipn (Z.to_nat a) df.
Proof.
  intros Ha. unfold iloc_from, slice_bound.
  destruct (Z.ltb_spec a 0); [lia|]. now rewrite Z.min_l by lia.
Qed.

Lemma firstn_plus {A} (l : list A) (a b : nat) :
  firstn (a + b) l = firstn a l ++ firstn b (skipn a l).
Proof.
  revert l; induction a as [|a IH]; intros l; [reflexivity|].
  destruct l as [|x l]; simpl; [now rewrite firstn_nil | now rewrite IH].
Qed.

Lemma skipn_plus {A} (l : list A) (a b : nat) :
  skipn (a + b) l = skipn b (skipn a l).
Proof.
  revert l; induction a as [|a IH]; intros l; [reflexivity|].
  destruct l as [|x l]; simpl; [now rewrite skipn_nil | apply IH].
Qed.

Lemma concat_rows_of_chunk {A} (df : list A) (size k : nat) :
  concat (map (rows_of_chunk df size) (seq 0 k)) = firstn (k * size) df.
Proof.
  induction k as [|k IH]; [reflexivity|].
  rewrite seq_S, map_app, concat_app, IH. simpl.
  rewrite app_nil_r. unfold rows_of_chunk.
  replace (size + k * size)%nat with (k * size + size)%nat by lia.
  now rewrite firstn_plus.
Qed.

Lemma setitem_last_app {A} (l : list A) (x y : A) :
  setitem_last (l ++ [x]) y = Ok (l ++ [y]).
Proof.
  unfold setitem_last. destruct (l ++ [x]) eqn:E.
  - destruct l; discriminate.
  - now rewrite <- E, removelast_last.
Qed.

Lemma getitem_last_app {A} (l : list A) (x : A) : getitem_last (l ++ [x]) = Ok x.
Proof. unfold getitem_last. now rewrite rev_app_distr. Qed.

Lemma range_S (m : nat) :
  range (Z.of_nat (S m)) = range (Z.of_nat m) ++ [Z.of_nat m].
Proof. unfold range. now rewrite !Nat2Z.id, seq_S, map_app. Qed.

Lemma split_dataframe_chunks (df : DataFrame) (num_threads : Z) :
  1 <= num_threads ->
  split_dataframe df num_threads = (Ok (chunks_of df num_threads), []).
Proof.
  intros Hn. unfold split_dataframe, floordiv, chunks_of.
  destruct (Z.eqb_spec num_threads 0) as [|_]; [lia|].
  rewrite bind_lift_Ok.
  set (cs := len df / num_threads).
  assert (Hcs : 0 <= cs) by (apply Z.div_pos; unfold len; lia).
  assert (Hle : num_threads * cs <= len df) by (apply Z.mul_div_le; lia).
  destruct (Z.to_nat num_threads) as [|m] eqn:Em; [lia|].
  assert (Hnm : num_threads = Z.of_nat (S m)) by lia.
  rewrite Hnm in *. clear Hnm Em Hn.
  replace (S m - 1)%nat with m by lia.
  rewrite range_S, map_app. cbn [map].
  rewrite getitem_last_app, bind_lift_Ok. unfold pd_concat.
  rewrite bind_lift_Ok, setitem_last_app. unfold lift. do 3 f_equal.
  - unfold range. rewrite Nat2Z.id, map_map. apply map_ext_in.
    intros i Hi. apply in_seq in Hi. unfold rows_of_chunk.
    rewrite iloc_within by nia. f_equal; [f_equal; lia|].
    f_equal. rewrite Z2Nat.inj_mul, Nat2Z.id by lia. reflexivity.
  - f_equal. cbn [concat]. rewrite app_nil_r.
    assert (Hm : 0 <= Z.of_nat m * cs) by (apply Z.mul_nonneg_nonneg; lia).
    assert (HS : Z.of_nat (S m) * cs = Z.of_nat m * cs + cs) by lia.
    rewrite iloc_within, iloc_from_within by lia.
    replace (Z.to_nat (Z.of_nat m * cs)) with (m * Z.to_nat cs)%nat
      by (rewrite Z2Nat.inj_mul, Nat2Z.id by lia; reflexivity).
    replace (Z.to_nat (Z.of_nat (S m) * cs)) with (m * Z.to_nat cs + Z.to_nat cs)%nat
      by (rewrite Z2Nat.inj_mul, Nat2Z.id by lia; lia).
    replace (Z.to_nat ((Z.of_nat m + 1) * cs - Z.of_nat m * cs)) with (Z.to_nat cs)
      by (f_equal; lia).
    rewrite skipn_plus. apply firstn_skipn.
Qed.

Lemma concat_chunks_of (df : DataFrame) (num_threads : Z) :
  concat (chunks_of df num_threads) = df.
Proof.
  unfold chunks_of. rewrite concat_app, concat_rows_of_chunk. simpl.
  rewrite app_nil_r. apply firstn_skipn.
Qed.

Lemma length_chunks_of (df : DataFrame) (num_threads : Z) :
  1 <= num_threads -> len (chunks_of df num_threads) = num_threads.
Proof.
  intros Hn. unfold chunks_of, len.
  rewrite length_app, length_map, length_seq. simpl. lia.
Qed.

(** ** Rows and segments *)

Lemma outcome_bind {A B} (m : M A) (f : A -> M B) :
  outcome (bind m f) =
  match outcome m with Ok a => outcome (f a) | Raise e => Raise e end.
Proof. destruct m as [[a|e] t]; simpl; [destruct (f a)|]; reflexivity. Qed.

Lemma events_bind {A B} (m : M A) (f : A -> M B) :
  events (bind m f) =
  events m ++ match outcome m with Ok a => events (f a) | Raise _ => [] end.
Proof.
  destruct m as [[a|e] t]; simpl; [destruct (f a)|]; simpl;
    now rewrite ?app_nil_r.
Qed.

Lemma comprehension_lift {A B} (f : A -> result B) xs :
  comprehension (fun x => lift (f x)) xs = (all_ok (map f xs), []).
Proof.
  induction xs as [|x xs IH]; [reflexivity|].
  cbn [comprehension map all_ok]. rewrite IH.
  destruct (f x); [|reflexivity].
  rewrite bind_lift_Ok. destruct (all_ok (map f xs)); reflexivity.
Qed.

Section Properties.

Variable provider : pyval -> string -> result pystr.

Lemma translate_text_success text lang s :
  provider text lang = Ok s ->
  translate_text provider text lang = (Ok (PyStr s), [ProviderCall text lang]).
Proof.
  intros H. unfold translate_text, call_provider. rewrite bind_emit, H.
  reflexivity.
Qed.

Lemma translate_text_failure_str s lang e :
  provider (PyStr s) lang = Raise e ->
  translate_text provider (PyStr s) lang =
  (Ok no_translation,
   [ProviderCall (PyStr s) lang; LogError (firstn 30 s) e]).
Proof.
  intros H. unfold translate_text, call_provider. rewrite bind_emit, H.
  reflexivity.
Qed.

Lemma translate_text_failure_escapes text lang e e' :
  provider text lang = Raise e -> slice_to 30 text = Raise e' ->
  translate_text provider text lang = (Raise e', [ProviderCall text lang]).
Proof.
  intros H Hs. unfold translate_text, call_provider. rewrite bind_emit, H.
  destruct text; try discriminate Hs; injection Hs as <-; reflexivity.
Qed.

(** On a row of the data model the loop body returns: the provider's
    translation, or the sentinel when the provider failed. *)
Lemma translate_row_str lang row :
  has_text_str row = true ->
  exists s, row_get "text" row = Some (PyStr s) /\
    outcome (translate_row provider lang row) =
    Ok (match provider (PyStr s) lang with
        | Ok t => PyStr t
        | Raise _ => no_translation
        end).
Proof.
  unfold has_text_str, translate_row, getattr. intros H.
  destruct (row_get "text" row) as [[s| | | | |]|]; try discriminate.
  exists s. split; [reflexivity|]. rewrite bind_ret.
  destruct (provider (PyStr s) lang) eqn:E.
  - now rewrite (translate_text_success _ _ _ E).
  - now rewrite (translate_text_failure_str _ _ _ E).
Qed.

Lemma iterrows_loop_outcome rows name lang acc c :
  outcome (iterrows_loop provider rows name lang acc c) =
  match translated_texts_of provider lang rows with
  | Ok vs => Ok (acc ++ vs)
  | Raise e => Raise e
  end.
Proof.
  revert acc c. induction rows as [|row rows IH]; intros acc c.
  - simpl. now rewrite app_nil_r.
  - cbn [iterrows_loop translated_texts_of]. unfold translate_row.
    rewrite !outcome_bind.
    destruct (outcome (getattr row "text")) as [text|e]; [|reflexivity].
    rewrite outcome_bind.
    destruct (outcome (translate_text provider text lang)) as [t|e];
      [|reflexivity].
    rewrite outcome_bind.
    assert (Hc : forall b : bool,
      outcome (if b then emit (LogProgress name (c + 1)) else ret tt) = Ok tt)
      by (intros []; reflexivity).
    rewrite Hc, IH.
    destruct (translated_texts_of provider lang rows); [|reflexivity].
    now rewrite <- app_assoc.
Qed.

Lemma set_column_translated lang rows :
  match translated_texts_of provider lang rows with
  | Ok vs => set_column "text_translated" vs rows
  | Raise e => Raise e
  end = translated_rows_of provider lang rows.
Proof.
  induction rows as [|row rows IH]; [reflexivity|].
  cbn [translated_texts_of translated_rows_of].
  destruct (outcome (translate_row provider lang row)) as [v|e]; [|reflexivity].
  rewrite <- IH.
  destruct (translated_texts_of provider lang rows) as [vs|e]; [|reflexivity].
  unfold set_column. cbn [length combine map Nat.eqb fst snd].
  destruct (Nat.eqb (length vs) (length rows)); reflexivity.
Qed.

Lemma translate_dataframe_segment_outcome seg name path lang :
  outcome (translate_dataframe_segment provider seg name path lang) =
  translated_rows_of provider lang seg.
Proof.
  unfold translate_dataframe_segment.
  rewrite outcome_bind, iterrows_loop_outcome, <- set_column_translated.
  destruct (translated_texts_of provider lang seg); reflexivity.
Qed.

Lemma translated_rows_of_app lang a b :
  translated_rows_of provider lang (a ++ b) =
  match translated_rows_of provider lang a with
  | Ok a' =>
      match translated_rows_of provider lang b with
      | Ok b' => Ok (a' ++ b')
      | Raise e => Raise e
      end
  | Raise e => Raise e
  end.
Proof.
  induction a as [|row a IH]; simpl.
  - destruct (translated_rows_of provider lang b); reflexivity.
  - destruct (outcome (translate_row provider lang row)); [|reflexivity].
    rewrite IH.
    destruct (translated_rows_of provider lang a); [|reflexivity].
    destruct (translated_rows_of provider lang b); reflexivity.
Qed.

Lemma translated_rows_of_concat lang chunks :
  match all_ok (map (translated_rows_of provider lang) chunks) with
  | Ok dfs => Ok (concat dfs)
  | Raise e => Raise e
  end = translated_rows_of provider lang (concat chunks).
Proof.
  induction chunks as [|ch chunks IH]; [reflexivity|].
  cbn [map all_ok concat]. rewrite translated_rows_of_app, <- IH.
  destruct (translated_rows_of provider lang ch); [|reflexivity].
  destruct (all_ok (map (translated_rows_of provider lang) chunks));
    reflexivity.
Qed.

(** What a successful segment looks like, row by row. *)
Lemma translated_rows_of_Forall2 lang rows out :
  translated_rows_of provider lang rows = Ok out ->
  Forall2 (fun row row' =>
             exists v, outcome (translate_row provider lang row) = Ok v /\
                       row' = row_set "text_translated" v row) rows out.
Proof.
  revert out. induction rows as [|row rows IH]; intros out; simpl.
  - intros [= <-]. constructor.
  - destruct (outcome (translate_row provider lang row)) as [v|e] eqn:E;
      [|discriminate].
    destruct (translated_rows_of provider lang rows) as [out'|e];
      [|discriminate].
    intros [= <-]. constructor; [now exists v | now apply IH].
Qed.

Lemma translated_rows_of_str lang rows :
  Forall (fun row => has_text_str row = true) rows ->
  exists out, translated_rows_of provider lang rows = Ok out.
Proof.
  induction 1 as [|row rows Hrow _ [out IH]]; simpl; [now exists []|].
  destruct (translate_row_str lang row Hrow) as (s & _ & ->).
  rewrite IH. eauto.
Qed.


(** *** The pool *)

Lemma submit_rest_Ok {A} (tasks : list (M A)) k :
  submit_rest (map Ok tasks) k =
  (Ok tt, map (fun j => ApplyAsync (Z.of_nat j)) (seq k (length tasks))).
Proof.
  revert k. induction tasks as [|task tasks IH]; intros k; [reflexivity|].
  cbn [map submit_rest length seq]. now rewrite bind_emit, IH.
Qed.

Lemma join_workers_eq pending i returned :
  exists r,
    join_workers pending i returned = (Ok r, concat pending) /\
    forall j, In j r <-> In j returned \/ (i <= j < i + length pending)%nat.
Proof.
  revert i returned. induction pending as [|evs pending IH]; intros i returned.
  - exists returned. split; [reflexivity|]. intros j. cbn [length].
    split; [now left | intros [H|H]; [exact H | lia]].
  - cbn [join_workers].
    destruct (IH (S i) (if existsb (Nat.eqb i) returned then returned
                        else returned ++ [i])) as (r & Hr & Hin).
    exists r. split; [unfold bind; now rewrite Hr|].
    intros j. rewrite Hin. cbn [length].
    destruct (existsb (Nat.eqb i) returned) eqn:E.
    + apply existsb_exists in E as (i' & Hi' & Heq).
      apply Nat.eqb_eq in Heq. subst i'.
      split; intros [H|H]; auto; try (right; lia).
      destruct (Nat.eq_dec j i) as [->|]; [now left | right; lia].
    + rewrite in_app_iff. cbn [In].
      split; [intros [[H|[H|[]]]|H] | intros [H|H]]; auto; try (right; lia).
      destruct (Nat.eq_dec j i) as [->|]; [left; right; now left | right; lia].
Qed.

Lemma length_set_nth {A} i (x : A) l :
  (i < length l)%nat -> length (set_nth i x l) = length l.
Proof.
  intros Hi. unfold set_nth.
  rewrite length_app, length_firstn. cbn [length]. rewrite length_skipn. lia.
Qed.

Lemma concat_set_nth {A} (l : list (list A)) i x xs :
  nth_error l i = Some (x :: xs) ->
  Permutation (concat l) (x :: concat (set_nth i xs l)).
Proof.
  revert i. induction l as [|a l IH]; intros [|i]; cbn [nth_error];
    try discriminate.
  - intros [= ->]. reflexivity.
  - intros H. change (set_nth (S i) xs (a :: l)) with (a :: set_nth i xs l).
    cbn [concat]. rewrite (IH i H). symmetry. apply Permutation_middle.
Qed.

Lemma pool_steps_outcome {A} (tasks : list (M A)) sched k pending returned :
  length pending = length tasks -> (k <= length tasks)%nat ->
  exists r,
    outcome (pool_steps (map Ok tasks) sched k pending returned) = Ok r /\
    (forall j, (j < length tasks)%nat -> In j r) /\
    (forall j, In j r -> In j returned \/ (j < length tasks)%nat).
Proof.
  revert k pending returned.
  induction sched as [|th sched IH]; intros k pending returned Hlen Hk.
  - cbn [pool_steps]. rewrite skipn_map, outcome_bind, submit_rest_Ok.
    cbn [outcome fst].
    destruct (join_workers_eq pending 0 returned) as (r & -> & Hin).
    exists r. split; [reflexivity|]. split; intros j Hj.
    + apply Hin. right. lia.
    + apply Hin in Hj as [Hj|Hj]; [now left | right; lia].
  - destruct th as [|i]; cbn [pool_steps].
    + rewrite nth_error_map.
      destruct (nth_error tasks k) as [task|] eqn:Ek; cbn [option_map].
      * rewrite outcome_bind. cbn [outcome emit fst].
        apply IH; [exact Hlen|].
        assert (Hlt : (k < length tasks)%nat)
          by (apply nth_error_Some; congruence).
        lia.
      * now apply IH.
    + destruct (Nat.ltb_spec i k) as [Hi|Hi]; [|now apply IH].
      destruct (nth_error pending i) as [[|ev evs]|] eqn:Ei.
      * destruct (IH k pending
                    (if existsb (Nat.eqb i) returned then returned
                     else returned ++ [i]) Hlen Hk) as (r & Hr & Hall & Honly).
        exists r. split; [exact Hr|]. split; [exact Hall|].
        intros j Hj. destruct (Honly j Hj) as [Hin|Hin]; [|now right].
        destruct (existsb (Nat.eqb i) returned); [now left|].
        apply in_app_or in Hin as [Hin|[<-|[]]]; [now left | right; lia].
      * rewrite outcome_bind. cbn [outcome emit fst].
        apply IH; [|exact Hk]. rewrite length_set_nth; [exact Hlen|].
        apply nth_error_Some. congruence.
      * now apply IH.
Qed.

Lemma pool_steps_events {A} (tasks : list (M A)) sched k pending returned :
  (k <= length tasks)%nat ->
  Permutation
    (events (pool_steps (map Ok tasks) sched k pending returned))
    (map (fun j => ApplyAsync (Z.of_nat j)) (seq k (length tasks - k))
     ++ concat pending).
Proof.
  revert k pending returned.
  induction sched as [|th sched IH]; intros k pending returned Hk.
  - cbn [pool_steps]. rewrite skipn_map, events_bind, submit_rest_Ok.
    cbn [outcome events fst snd].
    destruct (join_workers_eq pending 0 returned) as (r & -> & _).
    cbn [snd]. now rewrite length_skipn.
  - destruct th as [|i]; cbn [pool_steps].
    + rewrite nth_error_map.
      destruct (nth_error tasks k) as [task|] eqn:Ek; cbn [option_map].
      * assert (Hlt : (k < length tasks)%nat)
          by (apply nth_error_Some; congruence).
        rewrite bind_emit. cbn [events snd].
        replace (length tasks - k)%nat with (S (length tasks - S k)) by lia.
        cbn [seq map app]. apply perm_skip. apply IH. lia.
      * now apply IH.
    + destruct (Nat.ltb_spec i k) as [Hi|Hi]; [|now apply IH].
      destruct (nth_error pending i) as [[|ev evs]|] eqn:Ei;
        [now apply IH| |now apply IH].
      rewrite bind_emit. cbn [events snd].
      rewrite (concat_set_nth pending i ev evs Ei).
      rewrite <- Permutation_middle. apply perm_skip. now apply IH.
Qed.

Lemma pool_steps_idle {A} (tasks : list (M A)) sched k pending returned :
  Forall (fun evs => evs = []) pending ->
  events (pool_steps (map Ok tasks) sched k pending returned) =
  map (fun j => ApplyAsync (Z.of_nat j)) (seq k (length tasks - k)).
Proof.
  intros Hidle.
  assert (Hcat : concat pending = [])
    by (induction Hidle as [|evs pending -> _ IH]; [reflexivity | exact IH]).
  revert k returned.
  induction sched as [|th sched IH]; intros k returned.
  - cbn [pool_steps]. rewrite skipn_map, events_bind, submit_rest_Ok.
    cbn [outcome events fst snd].
    destruct (join_workers_eq pending 0 returned) as (r & -> & _).
    cbn [snd]. now rewrite Hcat, app_nil_r, length_skipn.
  - destruct th as [|i]; cbn [pool_steps].
    + rewrite nth_error_map.
      destruct (nth_error tasks k) as [task|] eqn:Ek; cbn [option_map].
      * assert (Hlt : (k < length tasks)%nat)
          by (apply nth_error_Some; congruence).
        rewrite events_bind. cbn [events emit outcome fst snd app].
        fold (events (pool_steps (map Ok tasks) sched (S k) pending returned)).
        rewrite IH.
        replace (length tasks - k)%nat with (S (length tasks - S k)) by lia.
        reflexivity.
      * rewrite IH. apply nth_error_None in Ek.
        now replace (length tasks - k)%nat with 0%nat by lia.
    + destruct (Nat.ltb_spec i k) as [Hi|Hi]; [|apply IH].
      destruct (nth_error pending i) as [[|ev evs]|] eqn:Ei;
        [apply IH| |apply IH].
      apply nth_error_In in Ei. rewrite Forall_forall in Hidle.
      discriminate (Hidle _ Ei).
Qed.

Lemma async_get_returned {A} (subs : list (result (M A))) r i sub :
  In i r -> nth_error subs i = Some sub ->
  async_get (flat_map (fun i => match nth_error subs i with
                                | Some sub => [(i, task_outcome sub)]
                                | None => []
                                end) r) i = task_outcome sub.
Proof.
  intros Hin Hi. induction r as [|j r IH]; [contradiction|].
  cbn [flat_map]. destruct (Nat.eq_dec j i) as [->|Hji].
  - rewrite Hi. simpl. now rewrite Nat.eqb_refl.
  - destruct Hin as [|Hin]; [contradiction|].
    destruct (nth_error subs j); [|now apply IH].
    simpl. destruct (Nat.eqb_spec j i); [contradiction|now apply IH].
Qed.

Lemma map_seq_nth_error {A B} (l : list A) (h : nat -> B) (k : A -> B) :
  (forall i x, nth_error l i = Some x -> h i = k x) ->
  map h (seq 0 (length l)) = map k l.
Proof.
  induction l as [|x l IH] using rev_ind; intros H; [reflexivity|].
  rewrite length_app, Nat.add_comm. cbn [length Nat.add].
  rewrite seq_S, !map_app. cbn [map Nat.add]. f_equal.
  - apply IH. intros i y Hy. apply H. rewrite nth_error_app1; [exact Hy|].
    apply nth_error_Some. congruence.
  - f_equal. apply H. rewrite nth_error_app2, Nat.sub_diag by lia. reflexivity.
Qed.

(** However the threads are interleaved, reading the handles in submission
    order gives the outcomes of the tasks in submission order. *)
Lemma pool_join_get {A} sched (tasks : list (M A)) :
  exists finished,
    outcome (pool_join sched (map Ok tasks)) = Ok finished /\
    map (async_get finished) (seq 0 (length tasks)) = map outcome tasks.
Proof.
  unfold pool_join. rewrite outcome_bind.
  destruct (pool_steps_outcome tasks sched 0
              (map task_events (map Ok tasks)) [])
    as (r & -> & Hall & _); [now rewrite !length_map | lia |].
  eexists. split; [reflexivity|].
  apply map_seq_nth_error. intros i task Hi.
  rewrite (async_get_returned (map Ok tasks) r i (Ok task));
    [reflexivity | | now rewrite nth_error_map, Hi].
  apply Hall, nth_error_Some. congruence.
Qed.

(** The events of the pool are the submissions and the events of the
    tasks, in an order that depends on the interleaving. *)
Lemma pool_join_events {A} sched (tasks : list (M A)) :
  Permutation
    (events (pool_join sched (map Ok tasks)))
    (map (fun j => ApplyAsync (Z.of_nat j)) (seq 0 (length tasks))
     ++ concat (map events tasks)).
Proof.
  unfold pool_join. rewrite events_bind.
  destruct (pool_steps_outcome tasks sched 0
              (map task_events (map Ok tasks)) [])
    as (r & Hr & _); [now rewrite !length_map | lia |].
  rewrite Hr. cbn [events ret snd]. rewrite app_nil_r.
  rewrite (pool_steps_events tasks sched 0) by lia.
  now rewrite Nat.sub_0_r, map_map.
Qed.

Lemma pool_join_idle {A} sched (tasks : list (M A)) :
  Forall (fun task => events task = []) tasks ->
  events (pool_join sched (map Ok tasks)) =
  map (fun j => ApplyAsync (Z.of_nat j)) (seq 0 (length tasks)).
Proof.
  intros H. unfold pool_join. rewrite events_bind.
  destruct (pool_steps_outcome tasks sched 0
              (map task_events (map Ok tasks)) [])
    as (r & Hr & _); [now rewrite !length_map | lia |].
  rewrite Hr. cbn [events ret snd]. rewrite app_nil_r.
  rewrite pool_steps_idle; [now rewrite Nat.sub_0_r|].
  rewrite map_map. apply Forall_map.
  revert H. apply Forall_impl. now intros task.
Qed.

Lemma all_ok_length {A} (rs : list (result A)) l :
  all_ok rs = Ok l -> length l = length rs.
Proof.
  revert l. induction rs as [|[a|e] rs IH]; intros l; simpl.
  - now intros [= <-].
  - destruct (all_ok rs); [|discriminate]. intros [= <-]. simpl. f_equal. eauto.
  - discriminate.
Qed.

Lemma for_each_emit {A} (g : A -> event) xs :
  for_each xs (fun x => emit (g x)) = (Ok tt, map g xs).
Proof.
  induction xs as [|x xs IH]; [reflexivity|].
  cbn [for_each map]. now rewrite bind_emit, IH.
Qed.

Lemma getitem_range {A} (l : list A) (n i : Z) d :
  len l = n -> In i (range n) -> getitem l i = Ok (nth (Z.to_nat i) l d).
Proof.
  intros Hl Hi. unfold range in Hi. apply in_map_iff in Hi as (k & <- & Hk).
  apply in_seq in Hk. unfold getitem, len in *.
  destruct (Z.ltb_spec (Z.of_nat k) 0); [lia|]. rewrite Nat2Z.id.
  destruct (nth_error l k) eqn:E.
  - now rewrite (nth_error_nth _ _ d E).
  - apply nth_error_None in E. lia.
Qed.

(** *** The whole run *)

Lemma tasks_of_outcomes df n parent lang :
  1 <= n ->
  map outcome (tasks_of provider df n parent lang) =
  map (translated_rows_of provider lang) (chunks_of df n).
Proof.
  intros Hn. unfold tasks_of, range. rewrite !map_map.
  assert (Hl : Z.to_nat n = length (chunks_of df n))
    by (pose proof (length_chunks_of df n Hn); unfold len in *; lia).
  rewrite Hl. apply map_seq_nth_error. intros i ch Hi.
  rewrite translate_dataframe_segment_outcome, Nat2Z.id.
  now rewrite (nth_error_nth _ _ _ Hi).
Qed.

Lemma getitem_map_range {B} (g : Z -> B) n i :
  In i (range n) -> getitem (map g (range n)) i = Ok (g i).
Proof.
  intros Hi. unfold range in *. apply in_map_iff in Hi as (k & <- & Hk).
  apply in_seq in Hk. unfold getitem.
  destruct (Z.ltb_spec (Z.of_nat k) 0); [lia|].
  rewrite Nat2Z.id, !nth_error_map.
  rewrite (nth_error_nth' _ 0%nat) by (rewrite length_seq; lia).
  rewrite seq_nth by lia. reflexivity.
Qed.

Lemma submissions_Ok df n parent lang :
  1 <= n ->
  map (fun i =>
         outcome
           (chunk <- lift (getitem (chunks_of df n) i) ;;
            thread_name <- lift (getitem
              (map (fun i => String.append "Thread_" (str (i + 1))) (range n))
              i) ;;
            save_path <- lift (getitem
              (map (fun i => os_path_join (os_path_join parent "dfs_translated")
                               (String.append "sub_dfs_translated_" (str (i + 1))))
                   (range n)) i) ;;
            ret (translate_dataframe_segment provider chunk thread_name
                   save_path lang)))
      (range n) =
  map Ok (tasks_of provider df n parent lang).
Proof.
  intros Hn. unfold tasks_of. rewrite map_map. apply map_ext_in. intros i Hi.
  rewrite (@getitem_range DataFrame _ n i [] (length_chunks_of df n Hn) Hi),
    bind_lift_Ok.
  now rewrite !getitem_map_range, !bind_lift_Ok by exact Hi.
Qed.

(** The run of [translate_dataframe] for a positive number of threads: its
    outcome is the translation of the rows in their original order, and its
    events are the start line, the directories, what the pool did
    (submissions and workers, interleaved) and, on success only, the CSV
    and the closing line. *)
Lemma translate_dataframe_run sched df n parent lang :
  1 <= n ->
  translate_dataframe provider sched df n parent lang =
  (translated_rows_of provider lang df,
   [LogStart; Makedirs (os_path_join parent "dfs_translated")]
   ++ map (fun i => Makedirs
                      (os_path_join (os_path_join parent "dfs_translated")
                         (String.append "sub_dfs_translated_" (str (i + 1)))))
        (range n)
   ++ events (pool_join sched (map Ok (tasks_of provider df n parent lang)))
   ++ match translated_rows_of provider lang df with
      | Ok out => [ToCsv (os_path_join parent "df_translated.csv") out;
                   LogCompleted (os_path_join parent "df_translated.csv")]
      | Raise _ => []
      end).
Proof.
  intros Hn. unfold translate_dataframe.
  rewrite !bind_emit_after, after_after.
  rewrite (bind_after _ _ _ _ (split_dataframe_chunks df n Hn)), after_nil.
  rewrite (bind_after _ _ _ _ (for_each_emit _ _)), map_map, after_after.
  destruct (Z.ltb_spec n 1) as [|_]; [lia|]. rewrite bind_ret.
  cbv zeta. rewrite (submissions_Ok df n parent lang Hn), length_map.
  destruct (pool_join_get sched (tasks_of provider df n parent lang))
    as (finished & Hfin & Hget).
  pose proof (surjective_pairing
                (pool_join sched (map Ok (tasks_of provider df n parent lang))))
    as Hpool.
  fold (outcome (pool_join sched
                   (map Ok (tasks_of provider df n parent lang)))) in Hpool.
  rewrite Hfin in Hpool.
  rewrite (bind_after _ _ _ _ Hpool), after_after.
  rewrite comprehension_lift, Hget, tasks_of_outcomes by exact Hn.
  pose proof (translated_rows_of_concat lang (chunks_of df n)) as Hc.
  rewrite concat_chunks_of in Hc. rewrite <- Hc.
  destruct (all_ok (map (translated_rows_of provider lang) (chunks_of df n)))
    as [dfs|e] eqn:Eall.
  - fold (lift (Ok dfs)). rewrite bind_lift_Ok.
    destruct dfs as [|d dfs].
    + apply all_ok_length in Eall. rewrite length_map in Eall.
      pose proof (length_chunks_of df n Hn). unfold len in *. simpl in Eall. lia.
    + unfold pd_concat. rewrite bind_lift_Ok, !bind_emit_after, !after_after.
      unfold after, ret, events. cbn [fst snd]. f_equal.
      rewrite app_nil_r, <- !app_assoc. reflexivity.
  - unfold bind, after, events. cbn [fst snd]. f_equal.
    rewrite !app_nil_r, <- !app_assoc. reflexivity.
Qed.

Lemma length_tasks_of df n parent lang :
  length (tasks_of provider df n parent lang) = Z.to_nat n.
Proof. unfold tasks_of, range. now rewrite !length_map, length_seq. Qed.

Lemma submissions_range n :
  map (fun j => ApplyAsync (Z.of_nat j)) (seq 0 (Z.to_nat n)) =
  map ApplyAsync (range n).
Proof. unfold range. now rewrite map_map. Qed.

Lemma translate_dataframe_zero sched df parent lang :
  translate_dataframe provider sched df 0 parent lang =
  (Raise ZeroDivisionError,
   [LogStart; Makedirs (os_path_join parent "dfs_translated")]).
Proof. reflexivity. Qed.

Lemma translate_dataframe_negative sched df n parent lang :
  n < 0 ->
  translate_dataframe provider sched df n parent lang =
  (Raise IndexError,
   [LogStart; Makedirs (os_path_join parent "dfs_translated")]).
Proof.
  intros Hn. unfold translate_dataframe, split_dataframe, floordiv, range.
  destruct (Z.eqb_spec n 0); [lia|].
  replace (Z.to_nat n) with 0%nat by lia. reflexivity.
Qed.

(** A run that returns was given a positive number of threads. *)
Lemma translate_dataframe_Ok_threads sched df n parent lang out :
  outcome (translate_dataframe provider sched df n parent lang) = Ok out ->
  1 <= n.
Proof.
  intros H. destruct (Z.lt_trichotomy n 0) as [Hneg|[->|Hpos]]; [| |lia].
  - now rewrite translate_dataframe_negative in H.
  - now rewrite translate_dataframe_zero in H.
Qed.

(** ** The properties *)

(** *** Partition *)

Lemma getitem_chunks_of df n i :
  1 <= n -> 0 <= i < n - 1 ->
  getitem (chunks_of df n) i =
  Ok (rows_of_chunk df (Z.to_nat (len df / n)) (Z.to_nat i)).
Proof.
  intros Hn Hi. unfold getitem, chunks_of.
  destruct (Z.ltb_spec i 0); [lia|].
  rewrite nth_error_app1 by (rewrite length_map, length_seq; lia).
  rewrite nth_error_map.
  rewrite (nth_error_nth' _ 0%nat) by (rewrite length_seq; lia).
  rewrite seq_nth by lia. reflexivity.
Qed.

Lemma getitem_chunks_of_last df n :
  1 <= n ->
  getitem (chunks_of df n) (n - 1) =
  Ok (skipn (Z.to_nat ((n - 1) * (len df / n))) df).
Proof.
  intros Hn. unfold getitem, chunks_of.
  destruct (Z.ltb_spec (n - 1) 0); [lia|].
  rewrite nth_error_app2 by (rewrite length_map, length_seq; lia).
  rewrite length_map, length_seq.
  replace (Z.to_nat (n - 1) - (Z.to_nat n - 1))%nat with 0%nat by lia.
  cbn [nth_error]. do 3 f_equal.
  rewrite Z2Nat.inj_mul by (try apply Z.div_pos; unfold len; lia).
  f_equal. lia.
Qed.

(** C2: for every number of threads [n >= 1] (and every sequence of
    records, the empty one included) the split returns exactly [n] chunks;
    with [size = len(df) // n], chunk [i] for [i < n - 1] is the [size]
    consecutive rows of [df] starting at row [i * size], the last chunk is
    every row from [(n - 1) * size] on, that is [size] rows plus the
    remainder of the division; the chunks concatenated in index order are
    [df] itself, so no row is duplicated or dropped; and when [len(df) < n]
    the first [n - 1] chunks are empty and the last one is the whole of
    [df]. *)
Theorem split_dataframe_partition (df : DataFrame) (n : Z) :
  1 <= n ->
  exists chunks,
    split_dataframe df n = (Ok chunks, []) /\
    len chunks = n /\
    (forall i, 0 <= i < n - 1 ->
       exists chunk,
         getitem chunks i = Ok chunk /\
         chunk = firstn (Z.to_nat (len df / n))
                   (skipn (Z.to_nat i * Z.to_nat (len df / n)) df) /\
         len chunk = len df / n) /\
    (exists last_chunk,
       getitem chunks (n - 1) = Ok last_chunk /\
       last_chunk = skipn (Z.to_nat ((n - 1) * (len df / n))) df /\
       len last_chunk = len df / n + len df mod n) /\
    concat chunks = df /\
    (len df < n ->
       (forall i, 0 <= i < n - 1 -> getitem chunks i = Ok []) /\
       getitem chunks (n - 1) = Ok df).
Proof.
  intros Hn. exists (chunks_of df n).
  assert (Hsize : 0 <= len df / n) by (apply Z.div_pos; unfold len; lia).
  assert (Hmul : n * (len df / n) <= len df) by (apply Z.mul_div_le; lia).
  assert (Hdm : len df = n * (len df / n) + len df mod n)
    by (apply Z.div_mod; lia).
  split; [now apply split_dataframe_chunks|].
  split; [now apply length_chunks_of|].
  split; [|split; [|split; [apply concat_chunks_of|]]].
  - intros i Hi. eexists. split; [now apply getitem_chunks_of|].
    split; [reflexivity|]. unfold rows_of_chunk, len in *.
    rewrite length_firstn, length_skipn. nia.
  - eexists. split; [now apply getitem_chunks_of_last|].
    split; [reflexivity|]. unfold len in *. rewrite length_skipn. nia.
  - intros Hlt.
    assert (Hz : len df / n = 0) by (apply Z.div_small; unfold len in *; lia).
    split.
    + intros i Hi. rewrite getitem_chunks_of, Hz by lia. reflexivity.
    + rewrite getitem_chunks_of_last, Hz, Z.mul_0_r by lia. reflexivity.
Qed.

(** *** Failure of the provider on a row *)

(** C10: when the provider fails on a text, [translate_text] returns (the
    sentinel) exactly when the text is a string.  On a text that is not a
    string the slice [text[:30]] of the handler itself raises, and that
    exception leaves [translate_text] in place of the sentinel: a
    [TypeError] when the text is a Python object (the float NaN of a missing
    cell, [None], an integer), an [IndexError] when it is a numpy scalar (a
    cell of a frame whose columns are all numeric). *)
Theorem translate_text_failure_needs_str text lang e :
  provider text lang = Raise e ->
  ((exists v, outcome (translate_text provider text lang) = Ok v) <->
   (exists s, text = PyStr s)) /\
  ((forall s, text <> PyStr s) ->
   exists e',
     slice_to 30 text = Raise e' /\
     translate_text provider text lang =
     (Raise e', [ProviderCall text lang]) /\
     (text = PyNaN \/ text = PyNone \/ (exists z, text = PyInt z) ->
      e' = TypeError) /\
     (text = NpNaN \/ (exists z, text = NpNum z) -> e' = IndexError)).
Proof.
  intros H. split.
  - split.
    + intros [v Hv]. destruct text as [s| | | | |]; [now exists s|..];
        rewrite (translate_text_failure_escapes _ _ _ _ H eq_refl) in Hv;
        discriminate.
    + intros [s ->]. exists no_translation.
      now rewrite (translate_text_failure_str _ _ _ H).
  - intros Hs.
    destruct text as [s|z| | |z|]; [now destruct (Hs s)|..];
      eexists; (split; [reflexivity|]);
      (split; [exact (translate_text_failure_escapes _ _ _ _ H eq_refl)|]);
      (split; [intros [Ht|[Ht|[z' Ht]]] | intros [Ht|[z' Ht]]]);
      (reflexivity || discriminate Ht).
Qed.

(** *** Segments *)

Lemma row_get_set_same name v row : row_get name (row_set name v row) = Some v.
Proof.
  induction row as [|[k w] row IH]; simpl.
  - now rewrite String.eqb_refl.
  - destruct (String.eqb k name) eqn:E; simpl; now rewrite E.
Qed.

Lemma row_get_set_other name c v row :
  c <> name -> row_get c (row_set name v row) = row_get c row.
Proof.
  intros Hc. induction row as [|[k w] row IH]; simpl.
  - destruct (String.eqb_spec name c); [congruence|reflexivity].
  - destruct (String.eqb_spec k name) as [->|Hk]; simpl.
    + destruct (String.eqb_spec name c); [congruence|reflexivity].
    + now rewrite IH.
Qed.

Lemma row_set_new name v row :
  row_get name row = None -> row_set name v row = row ++ [(name, v)].
Proof.
  induction row as [|[k w] row IH]; simpl; [reflexivity|].
  destruct (String.eqb k name); [discriminate|]. intros H. now rewrite IH.
Qed.

Lemma row_set_columns name v row :
  row_get name row <> None -> map fst (row_set name v row) = map fst row.
Proof.
  induction row as [|[k w] row IH]; simpl; [congruence|].
  destruct (String.eqb k name); simpl; [reflexivity|].
  intros H. now rewrite IH.
Qed.

Lemma translate_text_Ok text lang v :
  outcome (translate_text provider text lang) = Ok v ->
  (forall t, provider text lang = Ok t -> v = PyStr t) /\
  (forall e, provider text lang = Raise e -> v = no_translation).
Proof.
  intros H. destruct (provider text lang) as [t|e] eqn:E.
  - rewrite (translate_text_success _ _ _ E) in H. injection H as <-.
    split; [now intros t' [= <-] | discriminate].
  - destruct text as [s| | | | |];
      [|rewrite (translate_text_failure_escapes _ _ _ _ E eq_refl) in H;
        discriminate..].
    rewrite (translate_text_failure_str _ _ _ E) in H. injection H as <-.
    split; [discriminate | reflexivity].
Qed.

Lemma translated_rows_of_rows lang rows out :
  translated_rows_of provider lang rows = Ok out ->
  Forall2 (row_translated provider lang) rows out.
Proof.
  intros H. apply translated_rows_of_Forall2 in H.
  induction H as [|row row' rows out (v & Hv & ->) _ IH]; constructor;
    [|exact IH].
  unfold translate_row, getattr in Hv.
  destruct (row_get "text" row) as [text|] eqn:Et; [|discriminate].
  rewrite bind_ret in Hv. destruct (translate_text_Ok _ _ _ Hv) as [Hok Hfail].
  exists text, v. split; [exact Et|]. split; [exact Hv|].
  split; [exact Hok|]. split; [exact Hfail|].
  split; [apply row_get_set_same|].
  split; [intros c Hc; now apply row_get_set_other|].
  split; [apply row_set_new | apply row_set_columns].
Qed.


(** *** Merge *)

Lemma Forall2_nth_error {A B} (R : A -> B -> Prop) l l' i x :
  Forall2 R l l' -> nth_error l i = Some x ->
  exists y, nth_error l' i = Some y /\ R x y.
Proof.
  intros H. revert i. induction H as [|a b l l' Hab _ IH]; intros i.
  - now destruct i.
  - destruct i as [|i]; simpl; [intros [= <-]; eauto | apply IH].
Qed.

(** C1: for every non-empty dataset and every [n >= 1], however the threads
    interleave and so whatever the order in which the workers finish, the
    frame [translate_dataframe] returns has as many rows as the input and
    its row [i] is row [i] of the input with its own translated text set in
    [text_translated]; and the run does return when every row has a string
    in its [text] column. *)
Theorem translate_dataframe_preserves_order sched df n parent lang :
  df <> [] -> 1 <= n ->
  (forall out,
     outcome (translate_dataframe provider sched df n parent lang) = Ok out ->
     length out = length df /\
     forall i row, nth_error df i = Some row ->
       exists v,
         outcome (translate_row provider lang row) = Ok v /\
         nth_error out i = Some (row_set "text_translated" v row)) /\
  (Forall (fun row => has_text_str row = true) df ->
   exists out,
     outcome (translate_dataframe provider sched df n parent lang) = Ok out).
Proof.
  intros _ Hn. rewrite (translate_dataframe_run sched df n parent lang Hn).
  cbn [outcome fst]. split; [|apply translated_rows_of_str].
  intros out H. apply translated_rows_of_Forall2 in H. split.
  - symmetry. eapply Forall2_length; eauto.
  - intros i row Hrow.
    destruct (Forall2_nth_error _ _ _ _ _ H Hrow) as (row' & Hi & v & Hv & ->).
    eauto.
Qed.

(** C9: for every dataset and every provider that is a function of its
    arguments, the outcome of the run with any [n >= 1] threads, however
    they interleave and whatever the order in which the workers finish, is
    the outcome of the run with a single thread: the same rows in the same order (or the same exception). *)
Theorem translate_dataframe_threads_irrelevant sched sched1 df n parent lang :
  1 <= n ->
  outcome (translate_dataframe provider sched df n parent lang) =
  outcome (translate_dataframe provider sched1 df 1 parent lang).
Proof.
  intros Hn. now rewrite !translate_dataframe_run by lia.
Qed.

(** *** Columns *)

(** C7, amended: in the frame a run returns, every row is the input row of
    the same position in which the column [text_translated] has been
    assigned the new translation of the row: the value [translate_text]
    returns for the text of the row, that is the provider's translation, or
    the sentinel when the provider raised.  Every other column keeps its
    value.  When the input row has no [text_translated] column the output
    row is the input row followed by that one new column; when it has one,
    the columns of the row are unchanged and the value of [text_translated]
    is replaced by the new translation. *)
Theorem translate_dataframe_passes_columns sched df n parent lang out :
  outcome (translate_dataframe provider sched df n parent lang) = Ok out ->
  Forall2 (fun row row' =>
             exists text v,
               row_get "text" row = Some text /\
               outcome (translate_text provider text lang) = Ok v /\
               (forall t, provider text lang = Ok t -> v = PyStr t) /\
               (forall e, provider text lang = Raise e -> v = no_translation) /\
               row_get "text_translated" row' = Some v /\
               (forall c, c <> "text_translated"%string ->
                          row_get c row' = row_get c row) /\
               (row_get "text_translated" row = None ->
                row' = row ++ [("text_translated"%string, v)]) /\
               (row_get "text_translated" row <> None ->
                map fst row' = map fst row)) df out.
Proof.
  intros H. pose proof (translate_dataframe_Ok_threads _ _ _ _ _ _ H) as Hn.
  rewrite (translate_dataframe_run sched df n parent lang Hn) in H.
  cbn [outcome fst] in H. exact (translated_rows_of_rows lang df out H).
Qed.

(** *** Configurations the run does not reject *)

Lemma chunks_of_nil n i : nth i (chunks_of [] n) [] = [].
Proof.
  unfold chunks_of. simpl (len _ / _). rewrite Zdiv_0_l. simpl Z.to_nat.
  rewrite Nat.mul_0_r. cbn [skipn].
  destruct (Nat.lt_ge_cases i (length (map (rows_of_chunk (@nil Row) 0)
                                          (seq 0 (Z.to_nat n - 1))))) as [Hi|Hi].
  - rewrite app_nth1 by exact Hi.
    rewrite (nth_indep _ _ (rows_of_chunk (@nil Row) 0 0%nat) Hi), map_nth.
    reflexivity.
  - rewrite app_nth2 by exact Hi.
    destruct (i - _)%nat as [|[|k]]; reflexivity.
Qed.

(** C4, amended: no configuration is rejected as such.  With [n = 0] the run
    stops on the [ZeroDivisionError] of the chunk size and with [n < 0] on
    the [IndexError] of the last chunk, in both cases after the start line
    and the creation of the directory [dfs_translated] and before any
    submission or provider call.  With an empty dataset and [n >= 1] the run
    does not fail: it submits [n] empty segments, calls the provider for
    none, writes the empty frame and returns it. *)
Theorem translate_dataframe_unchecked_configuration sched df n parent lang :
  (n = 0 ->
   translate_dataframe provider sched df n parent lang =
   (Raise ZeroDivisionError,
    [LogStart; Makedirs (os_path_join parent "dfs_translated")])) /\
  (n < 0 ->
   translate_dataframe provider sched df n parent lang =
   (Raise IndexError,
    [LogStart; Makedirs (os_path_join parent "dfs_translated")])) /\
  (1 <= n -> df = [] ->
   translate_dataframe provider sched df n parent lang =
   (Ok [],
    [LogStart; Makedirs (os_path_join parent "dfs_translated")]
    ++ map (fun i => Makedirs
                       (os_path_join (os_path_join parent "dfs_translated")
                          (String.append "sub_dfs_translated_" (str (i + 1)))))
         (range n)
    ++ map ApplyAsync (range n)
    ++ [ToCsv (os_path_join parent "df_translated.csv") [];
        LogCompleted (os_path_join parent "df_translated.csv")])).
Proof.
  split; [intros ->; apply translate_dataframe_zero|].
  split; [apply translate_dataframe_negative|].
  intros Hn ->. rewrite (translate_dataframe_run sched [] n parent lang Hn).
  rewrite pool_join_idle, length_tasks_of, submissions_range; [reflexivity|].
  unfold tasks_of. apply Forall_forall. intros task Hin.
  apply in_map_iff in Hin as (i & <- & _). now rewrite chunks_of_nil.
Qed.

(** *** Progress reports *)

Lemma progress_log_app c t1 t2 :
  progress_log c (t1 ++ t2) =
  progress_log c t1 ++ progress_log (c + provider_calls t1) t2.
Proof.
  revert c. induction t1 as [|ev t1 IH]; intros c.
  - unfold provider_calls, len. simpl. now rewrite Z.add_0_r.
  - destruct ev; cbn [app progress_log]; rewrite IH;
      unfold provider_calls, len; cbn [filter is_provider_call length];
      try reflexivity.
    do 2 f_equal. lia.
Qed.

Lemma translate_row_events lang row :
  (forall c, progress_log c (events (translate_row provider lang row)) = []) /\
  (forall v, outcome (translate_row provider lang row) = Ok v ->
             provider_calls (events (translate_row provider lang row)) = 1) /\
  forallb is_worker_event (events (translate_row provider lang row)) = true.
Proof.
  unfold translate_row, getattr.
  destruct (row_get "text" row) as [text|]; [rewrite bind_ret|].
  - destruct (provider text lang) as [s|e] eqn:E.
    + rewrite (translate_text_success _ _ _ E). now repeat split.
    + destruct text as [s| | | | |];
        [rewrite (translate_text_failure_str _ _ _ E); now repeat split|..];
        rewrite (translate_text_failure_escapes _ _ _ _ E eq_refl);
        (split; [reflexivity|split; [discriminate|reflexivity]]).
  - split; [reflexivity|split; [discriminate|reflexivity]].
Qed.

Lemma iterrows_loop_events row rest name lang acc c :
  events (iterrows_loop provider (row :: rest) name lang acc c) =
  events (translate_row provider lang row) ++
  match outcome (translate_row provider lang row) with
  | Ok t =>
      (if (c + 1) mod checkpoint_interval =? 0
       then [LogProgress name (c + 1)] else []) ++
      events (iterrows_loop provider rest name lang (acc ++ [t]) (c + 1))
  | Raise _ => []
  end.
Proof.
  cbn [iterrows_loop]. unfold translate_row.
  rewrite !events_bind, !outcome_bind, <- app_assoc. f_equal.
  destruct (outcome (getattr row "text")) as [text|e]; [|reflexivity].
  rewrite events_bind. f_equal.
  destruct (outcome (translate_text provider text lang)) as [t|e];
    [|reflexivity].
  rewrite events_bind.
  destruct ((c + 1) mod checkpoint_interval =? 0); reflexivity.
Qed.

Lemma rows_done_nonneg lang rows : 0 <= rows_done provider lang rows.
Proof.
  induction rows as [|row rows IH]; cbn [rows_done]; [lia|].
  destruct (outcome (translate_row provider lang row)); lia.
Qed.

Lemma rows_done_all lang rows out :
  translated_rows_of provider lang rows = Ok out ->
  rows_done provider lang rows = len rows.
Proof.
  revert out. induction rows as [|row rows IH]; intros out; [reflexivity|].
  cbn [translated_rows_of rows_done].
  destruct (outcome (translate_row provider lang row)); [|discriminate].
  destruct (translated_rows_of provider lang rows) as [out'|]; [|discriminate].
  intros _. rewrite (IH out' eq_refl). unfold len. cbn [length]. lia.
Qed.

Lemma range_succ m :
  0 <= m -> range (1 + m) = 0 :: map (fun j => j + 1) (range m).
Proof.
  intros Hm. unfold range.
  replace (Z.to_nat (1 + m)) with (S (Z.to_nat m)) by lia.
  cbn [seq map]. f_equal. rewrite <- seq_shift, !map_map.
  apply map_ext. intros k. lia.
Qed.

Lemma iterrows_loop_progress rows name lang acc c :
  progress_log c (events (iterrows_loop provider rows name lang acc c)) =
  map (fun k => (name, k, k))
    (filter (fun k => k mod 5 =? 0)
       (map (fun j => c + j + 1) (range (rows_done provider lang rows)))).
Proof.
  revert acc c. induction rows as [|row rows IH]; intros acc c; [reflexivity|].
  rewrite iterrows_loop_events, progress_log_app.
  destruct (translate_row_events lang row) as (Hlog & Hcalls & _).
  rewrite Hlog. cbn [app rows_done].
  destruct (outcome (translate_row provider lang row)) as [t|e];
    [|reflexivity].
  rewrite (Hcalls t eq_refl), range_succ by apply rows_done_nonneg.
  cbn [map filter]. rewrite map_map, Z.add_0_r.
  rewrite (map_ext (fun j => c + (j + 1) + 1) (fun j => c + 1 + j + 1))
    by (intros; lia).
  unfold checkpoint_interval.
  destruct ((c + 1) mod 5 =? 0); cbn [app progress_log map];
    now rewrite IH.
Qed.

(** C5, amended: the interval is not part of the configuration, it is the
    constant 5 of [translate_dataframe_segment].  For every segment the
    progress reports of the worker are, in order, one for each count among
    1, 2, .. (the number of rows translated) that is a multiple of 5; each
    carries the name of the worker and that count, and is emitted when
    exactly that many provider calls have been made.  A row that got the
    sentinel counts like any other, and on a segment that is translated to
    the end the number of rows translated is the length of the segment.  The
    rows returned are the translations of the rows, whatever is reported. *)
Theorem progress_every_fifth_row seg name path lang :
  progress_log 0
    (events (translate_dataframe_segment provider seg name path lang)) =
  map (fun k => (name, k, k)) (checkpoints 5 (rows_done provider lang seg)) /\
  (forall out,
     outcome (translate_dataframe_segment provider seg name path lang) = Ok out ->
     rows_done provider lang seg = len seg) /\
  outcome (translate_dataframe_segment provider seg name path lang) =
  translated_rows_of provider lang seg.
Proof.
  split; [|split].
  - unfold translate_dataframe_segment. rewrite events_bind, progress_log_app.
    rewrite iterrows_loop_progress. unfold checkpoints.
    rewrite (map_ext (fun j => 0 + j + 1) (fun j => j + 1)) by (intros; lia).
    destruct (outcome (iterrows_loop provider seg name lang [] 0));
      cbn [events lift snd progress_log]; now rewrite app_nil_r.
  - intros out. rewrite translate_dataframe_segment_outcome.
    apply rows_done_all.
  - apply translate_dataframe_segment_outcome.
Qed.

(** *** Persistence *)

Lemma iterrows_loop_worker_events rows name lang acc c :
  forallb is_worker_event
    (events (iterrows_loop provider rows name lang acc c)) = true.
Proof.
  revert acc c. induction rows as [|row rows IH]; intros acc c; [reflexivity|].
  rewrite iterrows_loop_events, forallb_app.
  destruct (translate_row_events lang row) as (_ & _ & ->).
  destruct (outcome (translate_row provider lang row)); [|reflexivity].
  rewrite forallb_app, IH.
  destruct ((c + 1) mod checkpoint_interval =? 0); reflexivity.
Qed.

Lemma translate_dataframe_segment_worker_events seg name path lang :
  forallb is_worker_event
    (events (translate_dataframe_segment provider seg name path lang)) = true.
Proof.
  unfold translate_dataframe_segment.
  rewrite events_bind, forallb_app, iterrows_loop_worker_events.
  destruct (outcome (iterrows_loop provider seg name lang [] 0)); reflexivity.
Qed.

Lemma pool_join_pool_events sched (tasks : list (M DataFrame)) :
  Forall (fun task => forallb is_worker_event (events task) = true) tasks ->
  forallb is_pool_event (events (pool_join sched (map Ok tasks))) = true.
Proof.
  intros H. apply forallb_forall. intros ev Hin.
  apply (Permutation_in _ (pool_join_events sched tasks)) in Hin.
  apply in_app_or in Hin as [Hin|Hin].
  - apply in_map_iff in Hin as (j & <- & _). reflexivity.
  - apply in_concat in Hin as (tr & Htr & Hin).
    apply in_map_iff in Htr as (task & <- & Htask).
    rewrite Forall_forall in H. specialize (H task Htask).
    rewrite forallb_forall in H. unfold is_pool_event.
    rewrite (H ev Hin). apply orb_true_r.
Qed.

Lemma pool_events_kinds sched df n parent lang :
  forallb is_pool_event
    (events (pool_join sched (map Ok (tasks_of provider df n parent lang)))) =
  true.
Proof.
  apply pool_join_pool_events. unfold tasks_of. apply Forall_forall.
  intros task Hin. apply in_map_iff in Hin as (i & <- & _).
  apply translate_dataframe_segment_worker_events.
Qed.

Lemma pool_events_no_csv tr :
  forallb is_pool_event tr = true -> existsb is_to_csv tr = false.
Proof.
  induction tr as [|ev tr IH]; [reflexivity|]. cbn [forallb existsb].
  intros H. apply andb_true_iff in H as [Hev Htr]. rewrite (IH Htr).
  now destruct ev.
Qed.

Lemma existsb_map_false {A B} (p : B -> bool) (g : A -> B) l :
  (forall x, p (g x) = false) -> existsb p (map g l) = false.
Proof.
  intros H. induction l as [|x l IH]; [reflexivity|].
  cbn [map existsb]. now rewrite H, IH.
Qed.

(** C8, amended: [translate_dataframe] itself persists the result.  A run
    that returns the frame [out] has written exactly that frame to
    [df_translated.csv] under [parent_dir], once, as its last action but the
    closing log line; its caller [main] adds nothing to what
    [translate_dataframe] does and drops the returned frame. *)
Theorem translate_dataframe_writes_csv sched df n parent lang out :
  outcome (translate_dataframe provider sched df n parent lang) = Ok out ->
  (exists pre,
     events (translate_dataframe provider sched df n parent lang) =
     pre ++ [ToCsv (os_path_join parent "df_translated.csv") out;
             LogCompleted (os_path_join parent "df_translated.csv")] /\
     existsb is_to_csv pre = false) /\
  main provider sched df parent n lang =
  (Ok tt, events (translate_dataframe provider sched df n parent lang)).
Proof.
  intros H. pose proof (translate_dataframe_Ok_threads _ _ _ _ _ _ H) as Hn.
  split.
  - rewrite (translate_dataframe_run sched df n parent lang Hn) in *.
    cbn [outcome events fst snd] in *. rewrite H.
    eexists. split; [rewrite !app_assoc; reflexivity|].
    rewrite !existsb_app, !existsb_map_false by reflexivity.
    cbn [existsb is_to_csv orb].
    apply pool_events_no_csv, pool_events_kinds.
  - unfold main.
    destruct (translate_dataframe provider sched df n parent lang) as [r t].
    cbn [outcome fst] in H. subst r. unfold bind, ret, events. cbn [snd].
    now rewrite app_nil_r.
Qed.

(** *** Failure isolation on rows of the data model

    When every row of the segment has a string in its [text] column, the
    segment is translated to the end and keeps its length and order: the
    output row of a row on which the provider raised holds the sentinel in
    [text_translated], that of any other row holds the provider's
    translation of its text, and every other column keeps its value. *)
Lemma translate_dataframe_segment_isolates_failures seg name path lang :
  Forall (fun row => has_text_str row = true) seg ->
  exists out,
    outcome (translate_dataframe_segment provider seg name path lang) = Ok out /\
    Forall2 (fun row row' =>
               exists s,
                 row_get "text" row = Some (PyStr s) /\
                 row_get "text_translated" row' =
                 Some (match provider (PyStr s) lang with
                       | Ok t => PyStr t
                       | Raise _ => no_translation
                       end) /\
                 (forall c, c <> "text_translated"%string ->
                            row_get c row' = row_get c row)) seg out.
Proof.
  rewrite translate_dataframe_segment_outcome.
  induction 1 as [|row rows Hrow _ (out & Hout & IH)]; [exists []; now split|].
  destruct (translate_row_str lang row Hrow) as (s & Hs & Hv).
  cbn [translated_rows_of]. rewrite Hv, Hout. eexists. split; [reflexivity|].
  constructor; [|exact IH]. exists s. split; [exact Hs|].
  split; [apply row_get_set_same | intros c Hc; now apply row_get_set_other].
Qed.

(** ** Further properties of the run *)

(** *** What a failed run leaves behind *)

(** A run that raises has written no CSV and has not logged the closing
    line: [to_csv] comes after every [res.get()]. *)
Theorem translate_dataframe_failure_writes_nothing sched df n parent lang e :
  outcome (translate_dataframe provider sched df n parent lang) = Raise e ->
  forall ev, In ev (events (translate_dataframe provider sched df n parent lang)) ->
    match ev with ToCsv _ _ | LogCompleted _ => False | _ => True end.
Proof.
  intros H ev Hin.
  destruct (Z.lt_trichotomy n 0) as [Hneg|[->|Hpos]].
  - rewrite translate_dataframe_negative in Hin by exact Hneg.
    destruct Hin as [<-|[<-|[]]]; exact I.
  - rewrite translate_dataframe_zero in Hin.
    destruct Hin as [<-|[<-|[]]]; exact I.
  - rewrite (translate_dataframe_run sched df n parent lang) in * by lia.
    cbn [outcome events fst snd] in *. rewrite H in Hin.
    rewrite app_nil_r in Hin.
    destruct Hin as [<-|[<-|Hin]]; try exact I. cbn [app] in Hin.
    apply in_app_or in Hin as [Hin|Hin];
      [apply in_map_iff in Hin as (i & <- & _); exact I|].
    pose proof (pool_events_kinds sched df n parent lang) as Hw.
    rewrite forallb_forall in Hw. specialize (Hw ev Hin).
    destruct ev; try exact I; discriminate Hw.
Qed.

(** *** Running the pipeline on its own output *)

Lemma row_set_set name v w row :
  row_set name v (row_set name w row) = row_set name v row.
Proof.
  induction row as [|[k u] row IH]; simpl.
  - now rewrite String.eqb_refl.
  - destruct (String.eqb k name) eqn:E; simpl; rewrite E;
      [reflexivity | now rewrite IH].
Qed.

Lemma translated_rows_of_again lang rows out :
  translated_rows_of provider lang rows = Ok out ->
  translated_rows_of provider lang out = Ok out.
Proof.
  intros H. apply translated_rows_of_Forall2 in H.
  induction H as [|row row' rows out' (v & Hv & ->) _ IH]; [reflexivity|].
  cbn [translated_rows_of]. rewrite IH.
  assert (Hrow : translate_row provider lang (row_set "text_translated" v row)
                 = translate_row provider lang row).
  { unfold translate_row, getattr.
    now rewrite row_get_set_other by discriminate. }
  now rewrite Hrow, Hv, row_set_set.
Qed.

(** The frame a run returns is a fixed point of the pipeline: translating
    it again, with any positive number of threads and any interleaving of
    them, returns the same frame.  The second run reads the unchanged [text]
    column and overwrites [text_translated] with the values it holds. *)
Theorem translate_dataframe_again sched sched' df n n' parent parent' lang out :
  outcome (translate_dataframe provider sched df n parent lang) = Ok out ->
  1 <= n' ->
  outcome (translate_dataframe provider sched' out n' parent' lang) = Ok out.
Proof.
  intros H Hn'. pose proof (translate_dataframe_Ok_threads _ _ _ _ _ _ H) as Hn.
  rewrite (translate_dataframe_run sched df n parent lang Hn) in H.
  rewrite (translate_dataframe_run sched' out n' parent' lang Hn').
  cbn [outcome fst] in *. now apply (translated_rows_of_again lang df).
Qed.

(** *** Directories *)

Lemma pool_events_no_makedirs tr :
  forallb is_pool_event tr = true -> makedirs_of tr = [].
Proof.
  induction tr as [|ev tr IH]; [reflexivity|]. cbn [forallb].
  intros H. apply andb_true_iff in H as [Hev Htr].
  unfold makedirs_of in *. cbn [flat_map]. rewrite (IH Htr).
  now destruct ev.
Qed.

Lemma flat_map_map_singleton {A B C} (f : B -> list C) (g : A -> B) (h : A -> C) l :
  (forall x, f (g x) = [h x]) -> flat_map f (map g l) = map h l.
Proof.
  intros H. induction l as [|x l IH]; [reflexivity|].
  cbn [map flat_map]. now rewrite H, IH.
Qed.

Lemma range_nonpos n : n <= 0 -> range n = [].
Proof. intros H. unfold range. now replace (Z.to_nat n) with 0%nat by lia. Qed.

Lemma str_inj a b : str a = str b -> a = b.
Proof.
  assert (H : forall z, NilZero.int_of_string (NilZero.string_of_int (Z.to_int z))
                        = Some (Z.to_int z)).
  { intros z. apply NilZero.isi; destruct z; cbn [Z.to_int]; try discriminate;
      intros [= E]; exact (DecimalPos.Unsigned.to_uint_nonnil _ E). }
  unfold str. intros E. apply DecimalZ.to_int_inj.
  pose proof (H a) as Ha. rewrite E, H in Ha. now injection Ha.
Qed.

Lemma append_inj_r a x y : String.append a x = String.append a y -> x = y.
Proof.
  induction a as [|c a IH]; cbn [String.append]; [trivial|].
  intros [= E]. now apply IH.
Qed.

Lemma string_length_append a b :
  String.length (String.append a b) = (String.length a + String.length b)%nat.
Proof. induction a as [|c a IH]; cbn; [reflexivity | now rewrite IH]. Qed.

Lemma NoDup_map_inj {A B} (f : A -> B) l :
  (forall x y, In x l -> In y l -> f x = f y -> x = y) ->
  NoDup l -> NoDup (map f l).
Proof.
  intros Hf Hl. induction Hl as [|x l Hx Hl IH]; [constructor|].
  cbn [map]. constructor.
  - intros Hin. apply in_map_iff in Hin as (y & Hy & Hin).
    assert (y = x) by (apply Hf; [now right | now left | exact Hy]).
    now subst.
  - apply IH. intros a b Ha Hb. apply Hf; now right.
Qed.

Lemma range_NoDup n : NoDup (range n).
Proof.
  unfold range. apply NoDup_map_inj; [|apply seq_NoDup].
  intros x y _ _. apply Nat2Z.inj.
Qed.

Lemma directories_NoDup parent n :
  NoDup (os_path_join parent "dfs_translated"
         :: map (fun i => os_path_join (os_path_join parent "dfs_translated")
                            (String.append "sub_dfs_translated_" (str (i + 1))))
              (range n)).
Proof.
  set (save_dir := os_path_join parent "dfs_translated").
  assert (Hjoin : forall i, exists sep,
            os_path_join save_dir
              (String.append "sub_dfs_translated_" (str (i + 1))) =
            String.append save_dir
              (String.append sep
                 (String.append "sub_dfs_translated_" (str (i + 1)))) /\
            (sep = EmptyString \/ sep = "/"%string)).
  { intros i. cbn [String.append]. unfold os_path_join.
    cbn [Ascii.eqb Bool.eqb].
    destruct (String.eqb save_dir EmptyString || ends_with_slash save_dir)%bool.
    - exists EmptyString. now split; [|left].
    - exists "/"%string. now split; [|right]. }
  constructor.
  - intros Hin. apply in_map_iff in Hin as (i & Hi & _).
    destruct (Hjoin i) as (sep & E & _). rewrite E in Hi.
    apply (f_equal String.length) in Hi.
    rewrite !string_length_append in Hi. cbn [String.length] in Hi. lia.
  - apply NoDup_map_inj; [|apply range_NoDup].
    intros i j _ _ E.
    destruct (Hjoin i) as (sep & Ei & Hs), (Hjoin j) as (sep' & Ej & Hs').
    rewrite Ei, Ej in E. apply append_inj_r in E.
    assert (Es : String.append "sub_dfs_translated_" (str (i + 1)) =
                 String.append "sub_dfs_translated_" (str (j + 1))).
    { destruct Hs as [->| ->], Hs' as [->| ->]; cbn [String.append] in E |- *;
        congruence. }
    apply append_inj_r, str_inj in Es. lia.
Qed.

(** Whatever the number of threads and whether the run succeeds or not, the
    directories it creates are, in this order, [dfs_translated] under
    [parent_dir] and one sub-directory [sub_dfs_translated_k] of it for each
    [k] from 1 to [num_threads] (none when [num_threads <= 0]); the workers
    create none, and no directory is created twice: each worker has a
    directory of its own. *)
Theorem translate_dataframe_directories sched df n parent lang :
  makedirs_of (events (translate_dataframe provider sched df n parent lang)) =
  os_path_join parent "dfs_translated"
  :: map (fun i => os_path_join (os_path_join parent "dfs_translated")
                     (String.append "sub_dfs_translated_" (str (i + 1))))
       (range n) /\
  NoDup (makedirs_of
           (events (translate_dataframe provider sched df n parent lang))).
Proof.
  assert (H : makedirs_of
                (events (translate_dataframe provider sched df n parent lang)) =
              os_path_join parent "dfs_translated"
              :: map (fun i => os_path_join (os_path_join parent "dfs_translated")
                                 (String.append "sub_dfs_translated_" (str (i + 1))))
                   (range n));
    [|split; [exact H | rewrite H; apply directories_NoDup]].
  destruct (Z.lt_trichotomy n 0) as [Hneg|[->|Hpos]].
  - rewrite translate_dataframe_negative, range_nonpos by lia. reflexivity.
  - rewrite translate_dataframe_zero. reflexivity.
  - rewrite (translate_dataframe_run sched df n parent lang) by lia.
    cbn [events snd]. unfold makedirs_of. rewrite !flat_map_app.
    cbn [flat_map app]. f_equal.
    rewrite flat_map_map_singleton
      with (h := fun i => os_path_join (os_path_join parent "dfs_translated")
                            (String.append "sub_dfs_translated_" (str (i + 1))))
      by reflexivity.
    fold (makedirs_of
            (events (pool_join sched
                       (map Ok (tasks_of provider df n parent lang))))).
    rewrite pool_events_no_makedirs by apply pool_events_kinds.
    destruct (translated_rows_of provider lang df); cbn [flat_map app];
      now rewrite ?app_nil_r.
Qed.

(** *** Error lines *)

Lemma error_lines_app t1 t2 :
  error_lines (t1 ++ t2) = error_lines t1 ++ error_lines t2.
Proof. apply flat_map_app. Qed.

Lemma translate_row_error_lines lang row :
  error_lines (events (translate_row provider lang row)) =
  match row_get "text" row with
  | Some (PyStr s) =>
      match provider (PyStr s) lang with
      | Raise e => [(firstn 30 s, e)]
      | Ok _ => []
      end
  | _ => []
  end.
Proof.
  unfold translate_row, getattr.
  destruct (row_get "text" row) as [text|]; [rewrite bind_ret|reflexivity].
  destruct (provider text lang) as [t|e] eqn:E.
  - rewrite (translate_text_success _ _ _ E).
    destruct text; try reflexivity. now rewrite E.
  - destruct text as [s| | | | |];
      [rewrite (translate_text_failure_str _ _ _ E), E; reflexivity|..];
      now rewrite (translate_text_failure_escapes _ _ _ _ E eq_refl).
Qed.

Lemma iterrows_loop_error_lines rows name lang acc c p e :
  In (p, e) (error_lines (events (iterrows_loop provider rows name lang acc c))) ->
  exists row s,
    In row rows /\ row_get "text" row = Some (PyStr s) /\
    provider (PyStr s) lang = Raise e /\ p = firstn 30 s.
Proof.
  revert acc c. induction rows as [|row rows IH]; intros acc c; [intros []|].
  rewrite iterrows_loop_events, error_lines_app, translate_row_error_lines.
  intros Hin. apply in_app_or in Hin as [Hin|Hin].
  - destruct (row_get "text" row) as [[s| | | | |]|] eqn:Et; try contradiction.
    destruct (provider (PyStr s) lang) as [|e'] eqn:Ep; [contradiction|].
    destruct Hin as [[= <- <-]|[]]. exists row, s. now repeat split; try left.
  - destruct (outcome (translate_row provider lang row)); [|contradiction].
    rewrite error_lines_app in Hin. apply in_app_or in Hin as [Hin|Hin].
    + destruct ((c + 1) mod checkpoint_interval =? 0); destruct Hin.
    + destruct (IH _ _ Hin) as (row' & s & Hrow & Hrest).
      exists row', s. split; [now right | exact Hrest].
Qed.

Lemma iterrows_loop_error_logged rows name lang acc c vs row s e :
  translated_texts_of provider lang rows = Ok vs ->
  In row rows -> row_get "text" row = Some (PyStr s) ->
  provider (PyStr s) lang = Raise e ->
  In (firstn 30 s, e)
     (error_lines (events (iterrows_loop provider rows name lang acc c))).
Proof.
  revert acc c vs. induction rows as [|r rows IH]; intros acc c vs; [intros _ []|].
  cbn [translated_texts_of].
  rewrite iterrows_loop_events, error_lines_app, translate_row_error_lines.
  destruct (outcome (translate_row provider lang r)) as [v|] eqn:Ev;
    [|discriminate].
  destruct (translated_texts_of provider lang rows) as [vs'|] eqn:Evs;
    [|discriminate].
  intros _ [->|Hin] Ht Hp; apply in_or_app.
  - left. rewrite Ht, Hp. now left.
  - right. rewrite error_lines_app. apply in_or_app. right. eauto.
Qed.

(** An error line is logged only for a row of the segment whose text is a
    string on which the provider raised: it shows the first 30 characters
    of that text, never more, with the provider's exception; no error line
    is logged for a row the provider translated.  In a segment that is
    translated to the end every such row has its error line. *)
Theorem translate_dataframe_segment_error_lines seg name path lang :
  (forall p e,
     In (p, e) (error_lines
                  (events (translate_dataframe_segment provider seg name path lang))) ->
     (length p <= 30)%nat /\
     exists row s,
       In row seg /\ row_get "text" row = Some (PyStr s) /\
       provider (PyStr s) lang = Raise e /\ p = firstn 30 s) /\
  (forall out row s e,
     outcome (translate_dataframe_segment provider seg name path lang) = Ok out ->
     In row seg -> row_get "text" row = Some (PyStr s) ->
     provider (PyStr s) lang = Raise e ->
     In (firstn 30 s, e)
        (error_lines
           (events (translate_dataframe_segment provider seg name path lang)))).
Proof.
  assert (Hev : error_lines
            (events (translate_dataframe_segment provider seg name path lang)) =
          error_lines (events (iterrows_loop provider seg name lang [] 0))).
  { unfold translate_dataframe_segment. rewrite events_bind, error_lines_app.
    destruct (outcome (iterrows_loop provider seg name lang [] 0));
      cbn [events lift snd]; now rewrite app_nil_r. }
  rewrite Hev. split.
  - intros p e Hin.
    destruct (iterrows_loop_error_lines _ _ _ _ _ _ _ Hin)
      as (row & s & Hrow & Ht & Hp & ->).
    split; [apply firstn_le_length | now exists row, s].
  - intros out row s e Hout. rewrite translate_dataframe_segment_outcome in Hout.
    rewrite <- set_column_translated in Hout.
    destruct (translated_texts_of provider lang seg) as [vs|] eqn:Evs;
      [|discriminate].
    now apply (iterrows_loop_error_logged seg name lang [] 0 vs).
Qed.

(** *** Provider calls *)

Lemma provider_args_app t1 t2 :
  provider_args (t1 ++ t2) = provider_args t1 ++ provider_args t2.
Proof. apply flat_map_app. Qed.

Lemma translate_row_provider_args lang row :
  provider_args (events (translate_row provider lang row)) = row_call lang row.
Proof.
  unfold translate_row, getattr, row_call.
  destruct (row_get "text" row) as [text|]; [rewrite bind_ret|reflexivity].
  destruct (provider text lang) as [t|e] eqn:E.
  - now rewrite (translate_text_success _ _ _ E).
  - destruct text as [s| | | | |];
      [now rewrite (translate_text_failure_str _ _ _ E)|..];
      now rewrite (translate_text_failure_escapes _ _ _ _ E eq_refl).
Qed.

Lemma iterrows_loop_provider_args rows name lang acc c :
  provider_args (events (iterrows_loop provider rows name lang acc c)) =
  segment_calls provider lang rows.
Proof.
  revert acc c. induction rows as [|row rows IH]; intros acc c; [reflexivity|].
  rewrite iterrows_loop_events, provider_args_app, translate_row_provider_args.
  unfold segment_calls. cbn [rows_done].
  destruct (outcome (translate_row provider lang row)) as [v|e].
  - rewrite provider_args_app, IH.
    replace (provider_args (if (c + 1) mod checkpoint_interval =? 0
                            then [LogProgress name (c + 1)] else []))
      with (@nil (pyval * string))
      by (destruct ((c + 1) mod checkpoint_interval =? 0); reflexivity).
    pose proof (rows_done_nonneg lang rows).
    replace (Z.to_nat (1 + rows_done provider lang rows))
      with (S (Z.to_nat (rows_done provider lang rows))) by lia.
    reflexivity.
  - cbn [Z.to_nat firstn flat_map]. now rewrite !app_nil_r.
Qed.

Lemma translate_dataframe_segment_provider_args seg name path lang :
  provider_args (events (translate_dataframe_segment provider seg name path lang)) =
  segment_calls provider lang seg.
Proof.
  unfold translate_dataframe_segment.
  rewrite events_bind, provider_args_app, iterrows_loop_provider_args.
  destruct (outcome (iterrows_loop provider seg name lang [] 0));
    cbn [events lift snd]; apply app_nil_r.
Qed.

Lemma translated_rows_of_calls lang rows out :
  translated_rows_of provider lang rows = Ok out ->
  segment_calls provider lang rows = flat_map (row_call lang) rows /\
  length (flat_map (row_call lang) rows) = length rows.
Proof.
  intros H. unfold segment_calls. rewrite (rows_done_all lang rows out H).
  unfold len. rewrite Nat2Z.id, firstn_all2 by lia. split; [reflexivity|].
  revert out H. induction rows as [|row rows IH]; intros out; [reflexivity|].
  cbn [translated_rows_of flat_map].
  destruct (outcome (translate_row provider lang row)) as [v|] eqn:Ev;
    [|discriminate].
  destruct (translated_rows_of provider lang rows) as [out'|]; [|discriminate].
  intros _. rewrite length_app, (IH out' eq_refl).
  unfold row_call. unfold translate_row, getattr in Ev.
  destruct (row_get "text" row); [reflexivity|discriminate].
Qed.

(** A worker calls the provider on the texts of its rows, in the order of
    the rows and with the target language of the run, up to and including
    the first row that makes it raise; on a segment that is translated to
    the end that is exactly one call per row. *)
Theorem translate_dataframe_segment_provider_calls seg name path lang :
  provider_args (events (translate_dataframe_segment provider seg name path lang)) =
  flat_map (row_call lang)
    (firstn (S (Z.to_nat (rows_done provider lang seg))) seg) /\
  (forall out,
     outcome (translate_dataframe_segment provider seg name path lang) = Ok out ->
     provider_args
       (events (translate_dataframe_segment provider seg name path lang)) =
     flat_map (row_call lang) seg /\
     length (provider_args
               (events (translate_dataframe_segment provider seg name path lang))) =
     length seg).
Proof.
  rewrite translate_dataframe_segment_provider_args. split; [reflexivity|].
  intros out. rewrite translate_dataframe_segment_outcome. intros H.
  destruct (translated_rows_of_calls lang seg out H) as [-> Hlen]. now split.
Qed.

(** *** The interleaving of the threads *)








(** *** Provider calls of the whole run *)

Lemma provider_args_concat l :
  provider_args (concat l) = concat (map provider_args l).
Proof.
  induction l as [|t l IH]; [reflexivity|].
  cbn [concat map]. now rewrite provider_args_app, IH.
Qed.

Lemma tasks_of_provider_args df n parent lang :
  1 <= n ->
  map (fun task => provider_args (events task))
    (tasks_of provider df n parent lang) =
  map (segment_calls provider lang) (chunks_of df n).
Proof.
  intros Hn. unfold tasks_of, range. rewrite !map_map.
  assert (Hl : Z.to_nat n = length (chunks_of df n))
    by (pose proof (length_chunks_of df n Hn); unfold len in *; lia).
  rewrite Hl. apply map_seq_nth_error. intros i ch Hi.
  rewrite translate_dataframe_segment_provider_args, Nat2Z.id.
  now rewrite (nth_error_nth _ _ _ Hi).
Qed.

(** The provider calls of a run, up to the order in which the workers
    interleave: those of each worker on its chunk. *)
Lemma translate_dataframe_provider_args sched df n parent lang :
  1 <= n ->
  Permutation
    (provider_args (events (translate_dataframe provider sched df n parent lang)))
    (concat (map (segment_calls provider lang) (chunks_of df n))).
Proof.
  intros Hn. rewrite (translate_dataframe_run sched df n parent lang Hn).
  cbn [events snd]. rewrite !provider_args_app.
  assert (Hpre : forall {I} (g : I -> event) l,
            (forall i, provider_args [g i] = []) ->
            provider_args (map g l) = []).
  { intros I g l Hg. induction l as [|i l IH]; [reflexivity|].
    change (map g (i :: l)) with ([g i] ++ map g l).
    now rewrite provider_args_app, Hg, IH. }
  rewrite Hpre by reflexivity. cbn [provider_args flat_map app].
  replace (provider_args
             match translated_rows_of provider lang df with
             | Ok out => [ToCsv (os_path_join parent "df_translated.csv") out;
                          LogCompleted (os_path_join parent "df_translated.csv")]
             | Raise _ => []
             end) with (@nil (pyval * string))
    by (destruct (translated_rows_of provider lang df); reflexivity).
  rewrite app_nil_r. unfold provider_args at 1.
  rewrite (pool_join_events sched (tasks_of provider df n parent lang)).
  rewrite flat_map_app.
  fold (provider_args
          (map (fun j => ApplyAsync (Z.of_nat j))
             (seq 0 (length (tasks_of provider df n parent lang))))).
  fold (provider_args (concat (map events (tasks_of provider df n parent lang)))).
  rewrite Hpre by reflexivity. cbn [app].
  rewrite provider_args_concat, map_map.
  now rewrite tasks_of_provider_args by exact Hn.
Qed.

Lemma all_ok_map_Ok {A B} (f : A -> result B) l r :
  all_ok (map f l) = Ok r -> Forall (fun x => exists y, f x = Ok y) l.
Proof.
  revert r. induction l as [|x l IH]; intros r; [constructor|].
  cbn [map all_ok]. destruct (f x) as [y|] eqn:E; [|discriminate].
  destruct (all_ok (map f l)) as [r'|]; [|discriminate].
  intros _. constructor; [now exists y | now apply (IH r')].
Qed.

Lemma flat_map_concat {A B} (f : A -> list B) (l : list (list A)) :
  concat (map (flat_map f) l) = flat_map f (concat l).
Proof.
  induction l as [|x l IH]; [reflexivity|].
  cbn [map concat]. now rewrite flat_map_app, IH.
Qed.

(** In a run that returns, the provider is called exactly once for each row
    of the dataset, on the text of that row and with the target language of
    the run; only the order of the calls depends on how the workers are
    interleaved. *)
Theorem translate_dataframe_one_call_per_row sched df n parent lang out :
  outcome (translate_dataframe provider sched df n parent lang) = Ok out ->
  Permutation
    (provider_args (events (translate_dataframe provider sched df n parent lang)))
    (flat_map (row_call lang) df) /\
  length (provider_args
            (events (translate_dataframe provider sched df n parent lang))) =
  length df.
Proof.
  intros H. pose proof (translate_dataframe_Ok_threads _ _ _ _ _ _ H) as Hn.
  pose proof (translate_dataframe_provider_args sched df n parent lang Hn) as Hp.
  rewrite (translate_dataframe_run sched df n parent lang Hn) in H.
  cbn [outcome fst] in H.
  assert (Hchunks : map (segment_calls provider lang) (chunks_of df n) =
                    map (flat_map (row_call lang)) (chunks_of df n)).
  { pose proof (translated_rows_of_concat lang (chunks_of df n)) as Hc.
    rewrite concat_chunks_of, H in Hc.
    destruct (all_ok (map (translated_rows_of provider lang) (chunks_of df n)))
      as [dfs|] eqn:Eall; [|discriminate].
    apply all_ok_map_Ok in Eall. apply map_ext_in. intros ch Hch.
    rewrite Forall_forall in Eall. destruct (Eall ch Hch) as [y Hy].
    now destruct (translated_rows_of_calls lang ch y Hy). }
  rewrite Hchunks, flat_map_concat, concat_chunks_of in Hp.
  split; [exact Hp|].
  rewrite (Permutation_length Hp).
  now destruct (translated_rows_of_calls lang df out H).
Qed.

(** *** A dataset without a [text] column *)

Lemma segment_calls_no_text lang seg :
  Forall (fun row => row_get "text" row = None) seg ->
  segment_calls provider lang seg = [].
Proof.
  intros H. unfold segment_calls.
  assert (Hf : Forall (fun row => row_get "text" row = None)
                 (firstn (S (Z.to_nat (rows_done provider lang seg))) seg)).
  { rewrite Forall_forall in *. intros row Hin. apply H.
    rewrite <- (firstn_skipn (S (Z.to_nat (rows_done provider lang seg))) seg).
    apply in_or_app. now left. }
  induction Hf as [|row rows Hrow _ IH]; [reflexivity|].
  cbn [flat_map]. rewrite IH. unfold row_call. now rewrite Hrow.
Qed.

(** On a non-empty dataset that has no [text] column a run with a positive
    number of threads raises the [AttributeError] of [row.text], and no
    worker has called the provider. *)
Theorem translate_dataframe_without_text_column sched df n parent lang :
  df <> [] -> 1 <= n ->
  Forall (fun row => row_get "text" row = None) df ->
  outcome (translate_dataframe provider sched df n parent lang) =
  Raise AttributeError /\
  provider_args
    (events (translate_dataframe provider sched df n parent lang)) = [].
Proof.
  intros Hne Hn Hdf. split.
  - rewrite (translate_dataframe_run sched df n parent lang Hn).
    cbn [outcome fst]. destruct Hdf as [|row rows Hrow _]; [congruence|].
    cbn [translated_rows_of]. unfold translate_row, getattr.
    now rewrite Hrow.
  - apply Permutation_nil. symmetry.
    rewrite (translate_dataframe_provider_args sched df n parent lang Hn).
    assert (Hall : forall ch, In ch (chunks_of df n) ->
                     segment_calls provider lang ch = []).
    { intros ch Hch. apply segment_calls_no_text.
      rewrite Forall_forall in *. intros row Hrow. apply Hdf.
      rewrite <- (concat_chunks_of df n). apply in_concat. eauto. }
    induction (chunks_of df n) as [|ch chunks IH]; [constructor|].
    cbn [map concat]. rewrite (Hall ch (or_introl eq_refl)).
    apply IH. intros ch' Hch'. apply Hall. now right.
Qed.

(** *** Reading the translated column *)

Lemma translate_row_Ok_cases lang row v :
  outcome (translate_row provider lang row) = Ok v ->
  exists text,
    row_get "text" row = Some text /\
    ((exists t, provider text lang = Ok t /\ v = PyStr t) \/
     (exists e s, provider text lang = Raise e /\ text = PyStr s /\
                  v = no_translation)).
Proof.
  unfold translate_row, getattr.
  destruct (row_get "text" row) as [text|]; [rewrite bind_ret|discriminate].
  intros H. exists text. split; [reflexivity|].
  destruct (provider text lang) as [t|e] eqn:E.
  - rewrite (translate_text_success _ _ _ E) in H. injection H as <-.
    left. now exists t.
  - destruct text as [s| | | | |];
      [|rewrite (translate_text_failure_escapes _ _ _ _ E eq_refl) in H;
        discriminate..].
    rewrite (translate_text_failure_str _ _ _ E) in H. injection H as <-.
    right. now exists e, s.
Qed.

(** How to read the frame a run returns: each of its rows comes from the
    input row of the same position, which has a [text]; when the provider
    returned a translation for that text, [text_translated] holds it, and
    when the provider raised, the text is a string and [text_translated]
    holds the sentinel.  So a value other than the sentinel is always the
    provider's own translation of the row's text. *)
Theorem translate_dataframe_translated_values sched df n parent lang out :
  outcome (translate_dataframe provider sched df n parent lang) = Ok out ->
  Forall2 (fun row row' =>
             exists text v,
               row_get "text" row = Some text /\
               row_get "text_translated" row' = Some v /\
               (forall t, provider text lang = Ok t -> v = PyStr t) /\
               (forall e, provider text lang = Raise e ->
                          v = no_translation /\ exists s, text = PyStr s) /\
               (v <> no_translation ->
                exists t, provider text lang = Ok t /\ v = PyStr t)) df out.
Proof.
  intros H. pose proof (translate_dataframe_Ok_threads _ _ _ _ _ _ H) as Hn.
  rewrite (translate_dataframe_run sched df n parent lang Hn) in H.
  cbn [outcome fst] in H. apply translated_rows_of_Forall2 in H.
  induction H as [|row row' rows out' (v & Hv & ->) _ IH]; constructor;
    [|exact IH].
  destruct (translate_row_Ok_cases _ _ _ Hv) as (text & Ht & Hcases).
  exists text, v. split; [exact Ht|]. split; [apply row_get_set_same|].
  destruct Hcases as [(t & Hp & ->)|(e & s & Hp & -> & ->)].
  - split; [intros t' Ht'; congruence|].
    split; [intros e He; congruence|]. intros _. now exists t.
  - split; [intros t' Ht'; congruence|].
    split; [intros e' _; split; [reflexivity | now exists s]|].
    intros Hv'. now destruct Hv'.
Qed.

(** *** Progress lines of the whole run *)

Lemma in_progress_log nm c tr c0 :
  In (LogProgress nm c) tr -> exists k, In (nm, c, k) (progress_log c0 tr).
Proof.
  revert c0. induction tr as [|ev tr IH]; intros c0; [intros []|].
  intros [->|Hin].
  - exists c0. now left.
  - destruct ev; cbn [progress_log]; try apply (IH _ Hin).
    destruct (IH c0 Hin) as [k Hk]. exists k. now right.
Qed.

Lemma rows_done_le lang rows : rows_done provider lang rows <= len rows.
Proof.
  induction rows as [|row rows IH]; cbn [rows_done]; unfold len in *;
    cbn [length]; [lia|].
  destruct (outcome (translate_row provider lang row)); lia.
Qed.

Lemma translate_dataframe_segment_progress_line seg name path lang nm c :
  In (LogProgress nm c)
     (events (translate_dataframe_segment provider seg name path lang)) ->
  nm = name /\ c mod 5 = 0 /\ 1 <= c <= len seg.
Proof.
  intros Hin. apply (in_progress_log _ _ _ 0) in Hin as [k Hk].
  unfold translate_dataframe_segment in Hk.
  rewrite events_bind, progress_log_app, iterrows_loop_progress in Hk.
  replace (progress_log _ match outcome (iterrows_loop provider seg name lang [] 0) with
                          | Ok a => events (lift (set_column "text_translated" a seg))
                          | Raise _ => []
                          end) with (@nil (string * Z * Z)) in Hk
    by (destruct (outcome (iterrows_loop provider seg name lang [] 0));
        reflexivity).
  rewrite app_nil_r in Hk.
  apply in_map_iff in Hk as (c' & [= <- <- <-] & Hc).
  apply filter_In in Hc as [Hc Hmod]. apply Z.eqb_eq in Hmod.
  apply in_map_iff in Hc as (j & <- & Hj). unfold range in Hj.
  apply in_map_iff in Hj as (i & <- & Hi). apply in_seq in Hi.
  pose proof (rows_done_le lang seg). pose proof (rows_done_nonneg lang seg).
  repeat split; try assumption; lia.
Qed.

Lemma chunk_length_bound df n i :
  1 <= n -> len (nth i (chunks_of df n) []) <= len df / n + len df mod n.
Proof.
  intros Hn.
  assert (Hsize : 0 <= len df / n) by (apply Z.div_pos; unfold len; lia).
  assert (Hmul : n * (len df / n) <= len df) by (apply Z.mul_div_le; lia).
  assert (Hdm : len df = n * (len df / n) + len df mod n)
    by (apply Z.div_mod; lia).
  assert (Hmod : 0 <= len df mod n) by (apply Z.mod_pos_bound; lia).
  unfold chunks_of.
  set (size := Z.to_nat (len df / n)) in *.
  set (k := (Z.to_nat n - 1)%nat) in *.
  destruct (Nat.lt_ge_cases i (length (map (rows_of_chunk df size) (seq 0 k))))
    as [Hi|Hi].
  - rewrite app_nth1 by exact Hi.
    rewrite (nth_indep _ _ (rows_of_chunk df size 0%nat) Hi), map_nth.
    unfold rows_of_chunk, len in *. rewrite length_firstn. lia.
  - rewrite app_nth2 by exact Hi.
    destruct (i - _)%nat as [|[|j]]; cbn [nth]; unfold len in *;
      cbn [length]; try lia.
    rewrite length_skipn. rewrite length_map, length_seq in Hi. nia.
Qed.

(** Every progress line of a run comes from one of its [n] workers: it
    carries the name [Thread_k] of that worker, with [k] between 1 and [n],
    and a count that is a positive multiple of 5 and at most the size of the
    largest chunk, [len(df) // n] plus the remainder of the division. *)
Theorem translate_dataframe_progress_lines sched df n parent lang nm c :
  In (LogProgress nm c)
     (events (translate_dataframe provider sched df n parent lang)) ->
  1 <= n /\
  (exists k, 1 <= k <= n /\ nm = String.append "Thread_" (str k)) /\
  c mod 5 = 0 /\
  1 <= c <= len df / n + len df mod n.
Proof.
  intros Hin.
  destruct (Z.lt_trichotomy n 0) as [Hneg|[->|Hpos]].
  - rewrite translate_dataframe_negative in Hin by exact Hneg.
    destruct Hin as [Hin|[Hin|[]]]; discriminate Hin.
  - rewrite translate_dataframe_zero in Hin.
    destruct Hin as [Hin|[Hin|[]]]; discriminate Hin.
  - assert (Hn : 1 <= n) by lia. split; [exact Hn|].
    rewrite (translate_dataframe_run sched df n parent lang Hn) in Hin.
    cbn [events snd] in Hin.
    destruct Hin as [Hin|[Hin|Hin]]; try discriminate Hin. cbn [app] in Hin.
    apply in_app_or in Hin as [Hin|Hin];
      [apply in_map_iff in Hin as (i & Hi & _); discriminate Hi|].
    apply in_app_or in Hin as [Hin|Hin].
    + apply (Permutation_in _ (pool_join_events sched _)) in Hin.
      apply in_app_or in Hin as [Hin|Hin];
        [apply in_map_iff in Hin as (i & Hi & _); discriminate Hi|].
      apply in_concat in Hin as (tr & Htr & Hin).
      apply in_map_iff in Htr as (task & <- & Htask).
      unfold tasks_of in Htask. apply in_map_iff in Htask as (i & <- & Hi).
      apply translate_dataframe_segment_progress_line in Hin
        as (-> & Hmod & Hc).
      unfold range in Hi. apply in_map_iff in Hi as (j & <- & Hj).
      apply in_seq in Hj.
      pose proof (chunk_length_bound df n (Z.to_nat (Z.of_nat j)) Hn).
      split; [exists (Z.of_nat j + 1); split; [lia|reflexivity]|].
      split; [exact Hmod|lia].
    + destruct (translated_rows_of provider lang df); [|destruct Hin].
      destruct Hin as [Hin|[Hin|[]]]; discriminate Hin.
Qed.

End Properties.

(** ** The properties on concrete runs *)

(** C3 at a row the code can receive: the text of the second row is the NaN
    of a missing cell, the provider refuses it, the handler of
    [translate_text] raises [TypeError] on [text[:30]], and the exception
    leaves [translate_dataframe_segment]: no row gets the sentinel and the
    third row is never translated. *)
Theorem provider_failure_escapes_segment :
  demo_provider PyNaN "de" = Raise (PyException "NotValidPayload") /\
  translate_text demo_provider PyNaN "de" =
  (Raise TypeError, [ProviderCall PyNaN "de"]) /\
  translate_dataframe_segment demo_provider nan_segment "Thread_1" "out" "de" =
  (Raise TypeError,
   [ProviderCall (PyStr (py "flood")) "de"; ProviderCall PyNaN "de"]).
Proof. repeat split. Qed.

Lemma split_dataframe_partition_witness :
  1 <= 2 /\
  exists chunks,
    split_dataframe demo_df 2 = (Ok chunks, []) /\
    len chunks = 2 /\
    concat chunks = demo_df /\
    getitem chunks 0 = Ok [tweet 1 (PyStr (py "flood"))] /\
    getitem chunks 1 = Ok [tweet 2 (PyStr (py "rain")); tweet 3 (PyStr (py "storm"))].
Proof.
  assert (H : 1 <= 2) by lia. split; [exact H|].
  destruct (split_dataframe_partition demo_df 2 H)
    as (chunks & Hsplit & Hlen & Hfirst & Hlast & Hconcat & _).
  exists chunks. repeat split; try assumption.
  - destruct (Hfirst 0 ltac:(lia)) as (chunk & -> & -> & _). reflexivity.
  - destruct Hlast as (chunk & Hget & -> & _). exact Hget.
Defined.

Lemma translate_text_failure_needs_str_witness :
  demo_provider PyNaN "de" = Raise (PyException "NotValidPayload") /\
  (forall s, PyNaN <> PyStr s) /\
  ~ (exists v, outcome (translate_text demo_provider PyNaN "de") = Ok v) /\
  slice_to 30 PyNaN = Raise TypeError /\
  translate_text demo_provider PyNaN "de" =
  (Raise TypeError, [ProviderCall PyNaN "de"]) /\
  demo_provider NpNaN "de" = Raise (PyException "NotValidPayload") /\
  (forall s, NpNaN <> PyStr s) /\
  slice_to 30 NpNaN = Raise IndexError /\
  translate_text demo_provider NpNaN "de" =
  (Raise IndexError, [ProviderCall NpNaN "de"]) /\
  outcome (translate_dataframe demo_provider [] all_nan_df 1 "out" "de") =
  Raise IndexError.
Proof.
  assert (H : demo_provider PyNaN "de" = Raise (PyException "NotValidPayload"))
    by reflexivity.
  assert (Hs : forall s, PyNaN <> PyStr s) by discriminate.
  assert (H' : demo_provider NpNaN "de" = Raise (PyException "NotValidPayload"))
    by reflexivity.
  assert (Hs' : forall s, NpNaN <> PyStr s) by discriminate.
  destruct (translate_text_failure_needs_str demo_provider PyNaN "de" _ H)
    as [Hiff Hraise].
  destruct (translate_text_failure_needs_str demo_provider NpNaN "de" _ H')
    as [_ Hraise'].
  split; [exact H|]. split; [exact Hs|]. split.
  - intros Hv. apply Hiff in Hv as [s Hv]. discriminate Hv.
  - destruct (Hraise Hs) as (e' & Hslice & Hrun & Hpy & _).
    rewrite (Hpy (or_introl eq_refl)) in Hslice, Hrun.
    split; [exact Hslice|]. split; [exact Hrun|].
    split; [exact H'|]. split; [exact Hs'|].
    destruct (Hraise' Hs') as (e'' & Hslice' & Hrun' & _ & Hnp).
    rewrite (Hnp (or_introl eq_refl)) in Hslice', Hrun'.
    split; [exact Hslice'|]. split; [exact Hrun' | reflexivity].
Defined.


Lemma translate_dataframe_preserves_order_witness :
  demo_df <> [] /\ 1 <= 2 /\
  Forall (fun row => has_text_str row = true) demo_df /\
  exists out,
    outcome (translate_dataframe demo_provider demo_sched demo_df 2
               "out" "de") = Ok out /\
    length out = length demo_df /\
    nth_error out 2 =
    Some (row_set "text_translated" no_translation (tweet 3 (PyStr (py "storm")))).
Proof.
  assert (Hne : demo_df <> []) by discriminate.
  assert (Hn : 1 <= 2) by lia.
  assert (H : Forall (fun row => has_text_str row = true) demo_df)
    by (repeat constructor).
  split; [exact Hne|]. split; [exact Hn|]. split; [exact H|].
  destruct (translate_dataframe_preserves_order demo_provider demo_sched
              demo_df 2 "out" "de" Hne Hn) as [Hrows Hret].
  destruct (Hret H) as [out Hout]. exists out.
  destruct (Hrows out Hout) as [Hlen Hnth].
  split; [exact Hout|]. split; [exact Hlen|].
  destruct (Hnth 2%nat (tweet 3 (PyStr (py "storm"))) eq_refl) as (v & Hv & ->).
  injection Hv as <-. reflexivity.
Defined.

Lemma translate_dataframe_threads_irrelevant_witness :
  1 <= 4 /\
  outcome (translate_dataframe demo_provider demo_sched six_tweets 4
             "out" "de") =
  outcome (translate_dataframe demo_provider [] six_tweets 1 "out" "de").
Proof.
  assert (Hn : 1 <= 4) by lia. split; [exact Hn|].
  exact (translate_dataframe_threads_irrelevant demo_provider demo_sched []
           six_tweets 4 "out" "de" Hn).
Defined.

(** The run accepts an empty dataset, and the error it stops on with zero
    threads is not a configuration error: no [InvalidConfiguration] is
    raised in either case. *)
Lemma invalid_configuration_not_raised :
  outcome (translate_dataframe demo_provider [] [] 4 "out" "de") = Ok [] /\
  outcome (translate_dataframe demo_provider [] [] 4 "out" "de") <>
  Raise (PyException "InvalidConfiguration") /\
  outcome (translate_dataframe demo_provider [] demo_df 0 "out" "de") <>
  Raise (PyException "InvalidConfiguration").
Proof. repeat split; discriminate. Qed.

Lemma translate_dataframe_unchecked_configuration_witness :
  translate_dataframe demo_provider [] demo_df 0 "out" "de" =
  (Raise ZeroDivisionError, [LogStart; Makedirs "out/dfs_translated"]) /\
  translate_dataframe demo_provider [] demo_df (-2) "out" "de" =
  (Raise IndexError, [LogStart; Makedirs "out/dfs_translated"]) /\
  translate_dataframe demo_provider [] [] 2 "out" "de" =
  (Ok [],
   [LogStart; Makedirs "out/dfs_translated";
    Makedirs "out/dfs_translated/sub_dfs_translated_1";
    Makedirs "out/dfs_translated/sub_dfs_translated_2";
    ApplyAsync 0; ApplyAsync 1;
    ToCsv "out/df_translated.csv" []; LogCompleted "out/df_translated.csv"]).
Proof.
  split; [|split].
  - exact (proj1 (translate_dataframe_unchecked_configuration demo_provider
                    [] demo_df 0 "out" "de") eq_refl).
  - exact (proj1 (proj2 (translate_dataframe_unchecked_configuration
                           demo_provider [] demo_df (-2) "out" "de"))
             eq_refl).
  - exact (proj2 (proj2 (translate_dataframe_unchecked_configuration
                           demo_provider [] [] 2 "out" "de"))
             ltac:(discriminate) eq_refl).
Defined.

(** With a report asked every 2 rows, a segment of 3 rows would be reported
    once, after its second row; the worker reports nothing, its interval
    being 5 whatever is asked. *)
Lemma checkpoint_interval_not_configurable :
  ~ (forall k : Z, 0 < k ->
       progress_log 0
         (events (translate_dataframe_segment demo_provider demo_df
                    "Thread_1" "out" "de")) =
       map (fun c => ("Thread_1"%string, c, c)) (checkpoints k (len demo_df))).
Proof. intros H. specialize (H 2 eq_refl). discriminate H. Qed.

Lemma progress_every_fifth_row_witness :
  exists out,
    outcome (translate_dataframe_segment demo_provider six_tweets
               "Thread_1" "out" "de") = Ok out /\
    rows_done demo_provider "de" six_tweets = 6 /\
    progress_log 0
      (events (translate_dataframe_segment demo_provider six_tweets
                 "Thread_1" "out" "de")) = [("Thread_1"%string, 5, 5)].
Proof.
  destruct (progress_every_fifth_row demo_provider six_tweets
              "Thread_1" "out" "de") as (Hlog & Hdone & Hout).
  eexists. split; [reflexivity|]. split.
  - exact (Hdone _ eq_refl).
  - rewrite Hlog. reflexivity.
Defined.

(** A frame that already has a [text_translated] column: the run adds no
    column to the row and replaces the value the column had. *)
Lemma existing_column_overwritten :
  outcome (translate_dataframe demo_provider [] translated_once 1
             "out" "de") =
  Ok [[("text"%string, PyStr (py "flood"));
       ("text_translated"%string, PyStr (py "Hochwasser"))]] /\
  row_get "text_translated"
    [("text"%string, PyStr (py "flood"));
     ("text_translated"%string, PyStr (py "Hochwasser"))] <>
  row_get "text_translated"
    [("text"%string, PyStr (py "flood")); ("text_translated"%string, PyStr (py "old"))].
Proof. split; [reflexivity|discriminate]. Qed.

Lemma translate_dataframe_passes_columns_witness :
  exists out,
    outcome (translate_dataframe demo_provider demo_sched translated_once 1
               "out" "de") = Ok out /\
    nth_error out 0 =
    Some [("text"%string, PyStr (py "flood"));
          ("text_translated"%string, PyStr (py "Hochwasser"))] /\
    Forall2 (fun row row' =>
               exists text v,
                 row_get "text" row = Some text /\
                 outcome (translate_text demo_provider text "de") = Ok v /\
                 (forall t, demo_provider text "de" = Ok t -> v = PyStr t) /\
                 (forall e, demo_provider text "de" = Raise e -> v = no_translation) /\
                 row_get "text_translated" row' = Some v /\
                 (forall c, c <> "text_translated"%string ->
                            row_get c row' = row_get c row) /\
                 (row_get "text_translated" row = None ->
                  row' = row ++ [("text_translated"%string, v)]) /\
                 (row_get "text_translated" row <> None ->
                  map fst row' = map fst row)) translated_once out.
Proof.
  eexists. split; [reflexivity|]. split; [reflexivity|].
  exact (translate_dataframe_passes_columns demo_provider demo_sched
           translated_once 1 "out" "de" _ eq_refl).
Defined.

(** The coordinator writes the merged frame itself. *)
Lemma coordinator_writes_output :
  In (ToCsv "out/df_translated.csv"
        [tweet 1 (PyStr (py "flood")) ++ [("text_translated"%string, PyStr (py "Hochwasser"))];
         tweet 2 (PyStr (py "rain")) ++ [("text_translated"%string, PyStr (py "Regen"))];
         tweet 3 (PyStr (py "storm")) ++ [("text_translated"%string, no_translation)]])
     (events (translate_dataframe demo_provider [] demo_df 2 "out" "de")) /\
  existsb is_to_csv
    (events (translate_dataframe demo_provider [] demo_df 2 "out" "de")) = true.
Proof. split; [|reflexivity]. simpl. tauto. Qed.

Lemma translate_dataframe_writes_csv_witness :
  exists out,
    outcome (translate_dataframe demo_provider [] demo_df 2 "out" "de") = Ok out /\
    (exists pre,
       events (translate_dataframe demo_provider [] demo_df 2 "out" "de") =
       pre ++ [ToCsv "out/df_translated.csv" out;
               LogCompleted "out/df_translated.csv"] /\
       existsb is_to_csv pre = false) /\
    main demo_provider [] demo_df "out" 2 "de" =
    (Ok tt, events (translate_dataframe demo_provider [] demo_df 2 "out" "de")).
Proof.
  eexists. split; [reflexivity|].
  exact (translate_dataframe_writes_csv demo_provider [] demo_df 2 "out" "de"
           _ eq_refl).
Defined.

(** ** The further properties on concrete runs *)

Lemma translate_dataframe_segment_isolates_failures_witness :
  Forall (fun row => has_text_str row = true) demo_df /\
  exists out,
    outcome (translate_dataframe_segment demo_provider demo_df
               "Thread_1" "out" "de") = Ok out /\
    Forall2 (fun row row' =>
               exists s,
                 row_get "text" row = Some (PyStr s) /\
                 row_get "text_translated" row' =
                 Some (match demo_provider (PyStr s) "de" with
                       | Ok t => PyStr t
                       | Raise _ => no_translation
                       end) /\
                 (forall c, c <> "text_translated"%string ->
                            row_get c row' = row_get c row)) demo_df out.
Proof.
  assert (H : Forall (fun row => has_text_str row = true) demo_df)
    by (repeat constructor).
  split; [exact H|].
  exact (translate_dataframe_segment_isolates_failures demo_provider demo_df
           "Thread_1" "out" "de" H).
Defined.

Lemma translate_dataframe_failure_writes_nothing_witness :
  outcome (translate_dataframe demo_provider [] nan_segment 2 "out" "de") =
  Raise TypeError /\
  In (ProviderCall PyNaN "de")
     (events (translate_dataframe demo_provider [] nan_segment 2 "out" "de")) /\
  forall path df,
    ~ In (ToCsv path df)
         (events (translate_dataframe demo_provider [] nan_segment 2 "out" "de")).
Proof.
  assert (H : outcome (translate_dataframe demo_provider [] nan_segment 2
                         "out" "de") = Raise TypeError) by reflexivity.
  split; [exact H|]. split; [simpl; tauto|].
  intros path df Hin.
  exact (translate_dataframe_failure_writes_nothing demo_provider [] nan_segment
           2 "out" "de" TypeError H (ToCsv path df) Hin).
Defined.

Lemma translate_dataframe_without_text_column_witness :
  untexted_df <> [] /\ 1 <= 2 /\
  Forall (fun row => row_get "text" row = None) untexted_df /\
  outcome (translate_dataframe demo_provider [] untexted_df 2 "out" "de") =
  Raise AttributeError /\
  provider_args
    (events (translate_dataframe demo_provider [] untexted_df 2 "out" "de")) = [].
Proof.
  assert (Hne : untexted_df <> []) by discriminate.
  assert (Hn : 1 <= 2) by lia.
  assert (H : Forall (fun row => row_get "text" row = None) untexted_df)
    by (repeat constructor).
  split; [exact Hne|]. split; [exact Hn|]. split; [exact H|].
  exact (translate_dataframe_without_text_column demo_provider [] untexted_df 2
           "out" "de" Hne Hn H).
Defined.

Lemma translate_dataframe_again_witness :
  exists out,
    outcome (translate_dataframe demo_provider [] demo_df 2 "out" "de") = Ok out /\
    1 <= 3 /\
    outcome (translate_dataframe demo_provider demo_sched out 3 "again" "de") =
    Ok out.
Proof.
  eexists. split; [reflexivity|].
  assert (Hn : 1 <= 3) by lia. split; [exact Hn|].
  exact (translate_dataframe_again demo_provider [] demo_sched demo_df 2 3
           "out" "again" "de" _ eq_refl Hn).
Defined.

Lemma translate_dataframe_segment_provider_calls_witness :
  exists out,
    outcome (translate_dataframe_segment demo_provider demo_df
               "Thread_1" "out" "de") = Ok out /\
    provider_args
      (events (translate_dataframe_segment demo_provider demo_df
                 "Thread_1" "out" "de")) =
    [(PyStr (py "flood"), "de"%string); (PyStr (py "rain"), "de"%string);
     (PyStr (py "storm"), "de"%string)] /\
    length (provider_args
              (events (translate_dataframe_segment demo_provider demo_df
                         "Thread_1" "out" "de"))) = length demo_df.
Proof.
  eexists. split; [reflexivity|].
  destruct (translate_dataframe_segment_provider_calls demo_provider demo_df
              "Thread_1" "out" "de") as [_ H].
  destruct (H _ eq_refl) as [Hcalls Hlen]. split; [|exact Hlen].
  rewrite Hcalls. reflexivity.
Defined.

Lemma translate_dataframe_one_call_per_row_witness :
  exists out,
    outcome (translate_dataframe demo_provider demo_sched demo_df 2
               "out" "de") = Ok out /\
    Permutation
      (provider_args
         (events (translate_dataframe demo_provider demo_sched demo_df 2
                    "out" "de")))
      [(PyStr (py "flood"), "de"%string); (PyStr (py "rain"), "de"%string);
       (PyStr (py "storm"), "de"%string)] /\
    length (provider_args
              (events (translate_dataframe demo_provider demo_sched demo_df 2
                         "out" "de"))) = length demo_df.
Proof.
  eexists. split; [reflexivity|].
  exact (translate_dataframe_one_call_per_row demo_provider demo_sched demo_df
           2 "out" "de" _ eq_refl).
Defined.

Lemma translate_dataframe_segment_error_lines_witness :
  In (py "storm", PyException "TranslationNotFound")
     (error_lines
        (events (translate_dataframe_segment demo_provider demo_df
                   "Thread_1" "out" "de"))) /\
  (length (py "storm") <= 30)%nat /\
  exists row s,
    In row demo_df /\ row_get "text" row = Some (PyStr s) /\
    demo_provider (PyStr s) "de" = Raise (PyException "TranslationNotFound") /\
    py "storm" = firstn 30 s.
Proof.
  destruct (translate_dataframe_segment_error_lines demo_provider demo_df
              "Thread_1" "out" "de") as [Honly Hall].
  assert (Hin : In (py "storm", PyException "TranslationNotFound")
                   (error_lines
                      (events (translate_dataframe_segment demo_provider demo_df
                                 "Thread_1" "out" "de")))).
  { apply (Hall _ (tweet 3 (PyStr (py "storm"))) (py "storm") _ eq_refl);
      [simpl; tauto | reflexivity | reflexivity]. }
  split; [exact Hin|]. exact (Honly _ _ Hin).
Defined.

Lemma translate_dataframe_translated_values_witness :
  exists out,
    outcome (translate_dataframe demo_provider [] demo_df 2 "out" "de") = Ok out /\
    Forall2 (fun row row' =>
               exists text v,
                 row_get "text" row = Some text /\
                 row_get "text_translated" row' = Some v /\
                 (forall t, demo_provider text "de" = Ok t -> v = PyStr t) /\
                 (forall e, demo_provider text "de" = Raise e ->
                            v = no_translation /\ exists s, text = PyStr s) /\
                 (v <> no_translation ->
                  exists t, demo_provider text "de" = Ok t /\ v = PyStr t))
      demo_df out.
Proof.
  eexists. split; [reflexivity|].
  exact (translate_dataframe_translated_values demo_provider [] demo_df 2
           "out" "de" _ eq_refl).
Defined.

Lemma translate_dataframe_progress_lines_witness :
  In (LogProgress "Thread_1" 5)
     (events (translate_dataframe demo_provider [] six_tweets 1 "out" "de")) /\
  1 <= 1 /\
  (exists k, 1 <= k <= 1 /\ "Thread_1"%string = String.append "Thread_" (str k)) /\
  5 mod 5 = 0 /\
  1 <= 5 <= len six_tweets / 1 + len six_tweets mod 1.
Proof.
  assert (Hin : In (LogProgress "Thread_1" 5)
                   (events (translate_dataframe demo_provider [] six_tweets 1
                              "out" "de"))) by (simpl; tauto).
  split; [exact Hin|].
  exact (translate_dataframe_progress_lines demo_provider [] six_tweets 1
           "out" "de" "Thread_1" 5 Hin).
Defined.
